(** * tex_builder.h: a shallow embedding of the texture builder and its laws

    The header [tex_builder.h] builds an RGBA pixel buffer ([texture_t]) and
    mutates it with a handful of operations: [texture], [_noise], [_rect],
    [_circle], [_mirror], [_flip].  This file embeds those C functions as
    Rocq functions and proves the properties the specification states about
    them.

    Platform assumptions (the usual LP64 ABI): [int] and [unsigned int] are
    32 bits wide, [size_t] is 64 bits wide, [sizeof(color_t)] is 16, [float]
    is IEEE-754 binary32 evaluated without excess precision.  Integers are
    values of [Z]; every C operation writes out its wrap-around ([u32],
    [s32], [u64]).  Signed overflow is modelled as two's-complement
    wrap-around, the behaviour of the mainstream compilers without
    optimisation; ISO C leaves it undefined. *)

From Stdlib Require Import ZArith Lia Bool SpecFloat.
From stdpp Require Import base list.

#[local] Open Scope Z_scope.

(** ** Machine integers *)

Module MachInt.

Definition INT_MAX : Z := 2147483647.
Definition UINT_MAX : Z := 4294967295.
Definition SIZE_MAX : Z := 18446744073709551615.

(** Conversion to [unsigned int]: reduction modulo 2^32. *)
Definition u32 (z : Z) : Z := z mod 4294967296.

(** Conversion to [int]: the representative of [z] modulo 2^32 that lies in
    [-2^31, 2^31). *)
Definition s32 (z : Z) : Z := (z + 2147483648) mod 4294967296 - 2147483648.

(** Conversion to [size_t]: reduction modulo 2^64. *)
Definition u64 (z : Z) : Z := z mod 18446744073709551616.

End MachInt.
Import MachInt.

(** ** Colours and the pixel store *)

(** [float]: IEEE-754 binary32, as the specification of floating-point
    numbers of the Standard Library with 24 bits of precision.  NaNs carry
    no payload in this model. *)
Definition float : Type := spec_float.
Definition prec32 : Z := 24.
Definition emax32 : Z := 128.

(** [typedef struct color_t { float r; float g; float b; float a; } color_t;] *)
Record color_t : Type := mk_color { r : float; g : float; b : float; a : float }.

Definition sizeof_color_t : Z := 16.

(** What a run of a C function ends in: a value, or one of the ways in
    which it does not return one. *)
Inductive fault : Type :=
| NullPointer   (* access through a null [rgb] pointer *)
| OutOfBounds   (* access outside the allocated pixel store *)
| Timeout.      (* the iteration budget of a loop was used up *)

Inductive result (A : Type) : Type :=
| Ok (x : A)
| Fault (f : fault).
Arguments Ok {A} x.
Arguments Fault {A} f.

Definition bind {A B : Type} (m : result A) (k : A -> result B) : result B :=
  match m with
  | Ok x => k x
  | Fault f => Fault f
  end.

Notation "'do' x <- m ; k" := (bind m (fun x => k))
  (at level 10, x name, m at level 100, k at level 200).

(** [color_t*]: either the null pointer or a block of cells. *)
Inductive ptr : Type :=
| NULL
| Block (cells : list color_t).

(** [p[i]] as an rvalue. *)
Definition load (p : ptr) (i : Z) : result color_t :=
  match p with
  | NULL => Fault NullPointer
  | Block cells =>
      if (0 <=? i) && (i <? Z.of_nat (length cells)) then
        match cells !! Z.to_nat i with
        | Some c => Ok c
        | None => Fault OutOfBounds
        end
      else Fault OutOfBounds
  end.

(** [p[i] = c]. *)
Definition store (p : ptr) (i : Z) (c : color_t) : result ptr :=
  match p with
  | NULL => Fault NullPointer
  | Block cells =>
      if (0 <=? i) && (i <? Z.of_nat (length cells)) then
        Ok (Block (<[Z.to_nat i := c]> cells))
      else Fault OutOfBounds
  end.

(** [typedef struct texture_t { size_t width; size_t height; color_t* rgb; } texture_t;] *)
Record texture_t : Type := mk_texture { width : Z; height : Z; rgb : ptr }.

Definition with_rgb (tex : texture_t) (p : ptr) : texture_t :=
  {| width := width tex; height := height tex; rgb := p |}.

(** The pixel in column [j] of row [i] (row-major), if the store has it. *)
Definition pixel (tex : texture_t) (j i : Z) : option color_t :=
  match rgb tex with
  | NULL => None
  | Block cells => cells !! Z.to_nat (i * width tex + j)
  end.

(** The number of cells of the pixel store. *)
Definition store_size (p : ptr) : Z :=
  match p with
  | NULL => 0
  | Block cells => Z.of_nat (length cells)
  end.

(** A buffer as [texture] builds it: the dimensions are those of an [int],
    the store is allocated and has exactly [width * height] cells, and its
    size in bytes is a [size_t]. *)
Definition wf_texture (tex : texture_t) : bool :=
  match rgb tex with
  | NULL => false
  | Block cells =>
      (0 <=? width tex) && (width tex <=? INT_MAX) &&
      (0 <=? height tex) && (height tex <=? INT_MAX) &&
      (Z.of_nat (length cells) =? width tex * height tex) &&
      (width tex * height tex * sizeof_color_t <=? SIZE_MAX)
  end.

(** ** Loops *)

(** [for (i = lo; i < hi; i++) body], for a counter that cannot wrap before
    it reaches [hi]: [n] iterations from [i]. *)
Fixpoint for_count {St : Type} (n : nat) (i : Z) (body : Z -> St -> result St) (s : St)
  : result St :=
  match n with
  | O => Ok s
  | S n' => do s' <- body i s; for_count n' (i + 1) body s'
  end.

Definition for_lt {St : Type} (lo hi : Z) (body : Z -> St -> result St) (s : St)
  : result St :=
  for_count (Z.to_nat (hi - lo)) lo body s.

(** ** The allocator *)

(** [malloc] is the C library's.  Its answers are an oracle: one entry per
    call, [Some junk] when the request is granted (the block then holds
    [junk] in every cell: its content is indeterminate) and [None] when it
    is refused (the call returns [NULL]).  An exhausted oracle refuses. *)
Definition heap : Type := list (option color_t).

Definition malloc (hp : heap) (nbytes : Z) : ptr * heap :=
  match hp with
  | Some junk :: hp' =>
      (Block (replicate (Z.to_nat (nbytes / sizeof_color_t)) junk), hp')
  | None :: hp' => (NULL, hp')
  | [] => (NULL, [])
  end.

(** ** [texture] *)

(** [texture_t texture(int w, int h, color_t rgba)].  [w * h] is an [int]
    product; it is widened to [size_t] for the size computation. *)
Definition texture (hp : heap) (w h : Z) (rgba : color_t)
  : heap * result texture_t :=
  let n := s32 (w * h) in
  let '(p, hp') := malloc hp (u64 (u64 n * sizeof_color_t)) in
  (hp',
   do p' <- for_lt 0 n (fun i p => store p i rgba) p;
   Ok {| width := u64 w; height := u64 h; rgb := p' |}).

(** ** [_noise] *)

(** The C library's [fmaxf] and [fminf] (ISO C, Annex F.10.9): the larger,
    respectively the smaller, of the two arguments; when exactly one of them
    is a NaN, the other one.  ISO C leaves open which argument is returned
    when the two compare equal, as -0 and +0 do; the x86-64 library returns
    the second one ([fmaxf(-0.0f, 0.0f)] is [+0]), and so do these: the
    first argument when it is the greater (the smaller), the second
    otherwise. *)
Definition is_nan (x : float) : bool :=
  match x with
  | S754_nan => true
  | _ => false
  end.

Definition fmaxf (x y : float) : float :=
  if is_nan x then y
  else if is_nan y then x
  else if SFltb y x then x else y.

Definition fminf (x y : float) : float :=
  if is_nan x then y
  else if is_nan y then x
  else if SFltb x y then x else y.

Definition fadd : float -> float -> float := SFadd prec32 emax32.
Definition fsub : float -> float -> float := SFsub prec32 emax32.
Definition fmul : float -> float -> float := SFmul prec32 emax32.
Definition fdiv : float -> float -> float := SFdiv prec32 emax32.

(** [(float) n] for an [int] [n]: rounded to nearest, ties to even. *)
Definition float_of_int (n : Z) : float := binary_normalize prec32 emax32 n 0 false.

Definition f_zero : float := S754_zero false.            (* 0.0f *)
Definition f_half : float := S754_finite false 8388608 (-24). (* 0.5f *)
Definition f_one : float := S754_finite false 8388608 (-23).  (* 1.0f *)

(** A channel value lies in the interval [0,1]. *)
Definition in_unit (v : float) : bool := SFleb f_zero v && SFleb v f_one.

Definition set_r (c : color_t) (v : float) : color_t :=
  {| r := v; g := g c; b := b c; a := a c |}.
Definition set_g (c : color_t) (v : float) : color_t :=
  {| r := r c; g := v; b := b c; a := a c |}.
Definition set_b (c : color_t) (v : float) : color_t :=
  {| r := r c; g := g c; b := v; a := a c |}.

(** [p[i].field = f(p[i])]: one statement that reads and writes cell [i]. *)
Definition modify (p : ptr) (i : Z) (f : color_t -> color_t) : result ptr :=
  do c <- load p i; store p i (f c).

Section Noise.

(** [srand], [rand] and [RAND_MAX] are the C library's.  The generator's
    hidden state is a value of [rng]; [srand seed] is the state after
    seeding, [rand] returns the next number and the next state. *)
Variable rng : Type.
Variable srand : Z -> rng.
Variable rand : rng -> Z * rng.
Variable RAND_MAX : Z.

(** [intensity * ((float)rand() / (float) RAND_MAX - 0.5f)] for the value
    [n] that [rand()] returned. *)
Definition noise_term (intensity : float) (n : Z) : float :=
  fmul intensity (fsub (fdiv (float_of_int n) (float_of_int RAND_MAX)) f_half).

(** The body of the loop of [_noise] for pixel [i]. *)
Definition noise_body (intensity : float) (i : Z) (st : rng * ptr)
  : result (rng * ptr) :=
  let '(g0, p) := st in
  let '(n1, g1) := rand g0 in
  do p <- modify p i (fun c => set_r c (fadd (r c) (noise_term intensity n1)));
  let '(n2, g2) := rand g1 in
  do p <- modify p i (fun c => set_g c (fadd (g c) (noise_term intensity n2)));
  let '(n3, g3) := rand g2 in
  do p <- modify p i (fun c => set_b c (fadd (b c) (noise_term intensity n3)));
  do p <- modify p i (fun c => set_r c (fminf (fmaxf (r c) f_zero) f_one));
  do p <- modify p i (fun c => set_g c (fminf (fmaxf (g c) f_zero) f_one));
  do p <- modify p i (fun c => set_b c (fminf (fmaxf (b c) f_zero) f_one));
  Ok (g3, p).

(** [void _noise(texture_t* tex, float intensity)]; [g] is the state of
    the generator when the function is entered. *)
Definition _noise (g : rng) (tex : texture_t) (intensity : float)
  : result (rng * texture_t) :=
  let g := srand 1 in
  do st <- for_lt 0 (u64 (width tex * height tex)) (noise_body intensity)
             (g, rgb tex);
  Ok (fst st, with_rgb tex (snd st)).

(** What the body of the loop makes of the pixel [c] when [rand()]
    returns [n1], [n2], [n3] for it. *)
Definition noisy (intensity : float) (n1 n2 n3 : Z) (c : color_t) : color_t :=
  {| r := fminf (fmaxf (fadd (r c) (noise_term intensity n1)) f_zero) f_one;
     g := fminf (fmaxf (fadd (g c) (noise_term intensity n2)) f_zero) f_one;
     b := fminf (fmaxf (fadd (b c) (noise_term intensity n3)) f_zero) f_one;
     a := a c |}.

End Noise.

(** The pixel [c'] has its colour channels in [0,1] and the alpha channel
    of [c]. *)
Definition noise_post (c c' : color_t) : Prop :=
  in_unit (r c') = true /\ in_unit (g c') = true /\ in_unit (b c') = true /\
  a c' = a c.

(** The portable generator that ISO C (7.22.2.2) gives as an example
    implementation of [rand] and [srand]; the examples below run on it. *)
Module SampleRand.
Definition rng : Type := Z.
Definition RAND_MAX : Z := 32767.
Definition srand (seed : Z) : rng := u32 seed.
Definition rand (next : rng) : Z * rng :=
  let next := u64 (next * 1103515245 + 12345) in
  (u32 (next / 65536) mod 32768, next).
End SampleRand.

(** ** [_rect] *)

(** [void _rect(texture_t* tex, unsigned int x, unsigned int y,
               unsigned int width, unsigned int height, color_t color)];
    [rw] and [rh] are the parameters [width] and [height]. *)
Definition _rect (tex : texture_t) (x y rw rh : Z) (color : color_t)
  : result texture_t :=
  if (width tex <? u32 (x + rw)) || (height tex <? u32 (y + rh)) then Ok tex
  else
    do p <- for_lt y (u32 (y + rh)) (fun i p =>
              for_lt x (u32 (x + rw)) (fun j p =>
                let index := u64 (u64 (i * width tex) + j) in
                store p index color) p) (rgb tex);
    Ok (with_rgb tex p).

(** ** [_circle] *)

(** The local variables of [_circle]. *)
Record circle_vars : Type :=
  mk_vars { cx : Z; cy : Z; dx : Z; dy : Z; err : Z }.

(** One guarded write of the span loops, for the column [i] (an [int]) and
    the row [row] (an [unsigned int]):
    [if (i >= 0 && i < tex->width && row >= 0 && row < tex->height)
       tex->rgb[row * tex->width + i] = color;] *)
Definition plot (tex : texture_t) (color : color_t) (i row : Z) (p : ptr)
  : result ptr :=
  if (0 <=? i) && (u64 i <? width tex) && (0 <=? row) && (row <? height tex)
  then store p (u64 (u64 (row * width tex) + u64 i)) color
  else Ok p.

(** [for (int i = lo; i <= hi; i++) body]: [hi] is an [unsigned int], so the
    comparison converts [i] to [unsigned int].  The loop does not end when
    [hi] is [UINT_MAX]; [fuel] bounds the number of iterations. *)
Fixpoint span (fuel : nat) (i hi : Z) (body : Z -> ptr -> result ptr) (p : ptr)
  : result ptr :=
  match fuel with
  | O => Fault Timeout
  | S fuel' =>
      if u32 i <=? hi then
        do p' <- body i p; span fuel' (s32 (i + 1)) hi body p'
      else Ok p
  end.

(** The store after the first [n] turns of the same loop, or after its last
    turn when it ends before. *)
Fixpoint span_prefix (n : nat) (i hi : Z) (body : Z -> ptr -> result ptr)
    (p : ptr) : result ptr :=
  match n with
  | O => Ok p
  | S n' =>
      if u32 i <=? hi then
        do p' <- body i p; span_prefix n' (s32 (i + 1)) hi body p'
      else Ok p
  end.

(** The two updates that end the body of the [while] loop. *)
Definition step_vars (radius : Z) (v : circle_vars) : circle_vars :=
  let v :=
    if err v <=? 0 then
      {| cx := cx v; cy := s32 (cy v + 1); dx := dx v;
         dy := s32 (dy v + 2); err := s32 (err v + dy v) |}
    else v in
  if 0 <? err v then
    let dx' := s32 (dx v + 2) in
    {| cx := s32 (cx v - 1); cy := cy v; dx := dx'; dy := dy v;
       err := s32 (u32 (u32 (err v) + u32 (u32 dx' - u32 (Z.shiftl radius 1)))) |}
  else v.

(** [while (cx >= cy) { ... }], at most [fuel] iterations; the span loops
    get the budget [n]. *)
Fixpoint circle_loop (fuel n : nat) (tex : texture_t) (x y radius : Z)
    (color : color_t) (v : circle_vars) (p : ptr) : result ptr :=
  match fuel with
  | O => Fault Timeout
  | S fuel' =>
      if cy v <=? cx v then
        do p <- span n (s32 (u32 (x - u32 (cx v)))) (u32 (x + u32 (cx v)))
                  (fun i p =>
                     do p <- plot tex color i (u32 (y + u32 (cy v))) p;
                     plot tex color i (u32 (y - u32 (cy v))) p) p;
        do p <- span n (s32 (u32 (x - u32 (cy v)))) (u32 (x + u32 (cy v)))
                  (fun i p =>
                     do p <- plot tex color i (u32 (y + u32 (cx v))) p;
                     plot tex color i (u32 (y - u32 (cx v))) p) p;
        circle_loop fuel' n tex x y radius color (step_vars radius v) p
      else Ok p
  end.

(** The iteration budget of [_circle]: the [while] loop runs at most
    [radius] times and a span has at most [2 * radius - 1] columns. *)
Definition circle_fuel (radius : Z) : nat := S (Z.to_nat (2 * radius)).

(** The values of the local variables when the [while] loop is entered. *)
Definition init_vars (radius : Z) : circle_vars :=
  {| cx := s32 (u32 (radius - 1)); cy := 0; dx := 1; dy := 1;
     err := s32 (u32 (u32 1 - u32 (Z.shiftl radius 1))) |}.

(** [void _circle(texture_t* tex, unsigned int x, unsigned int y,
                 unsigned int radius, color_t color)] *)
Definition _circle (tex : texture_t) (x y radius : Z) (color : color_t)
  : result texture_t :=
  do p <- circle_loop (circle_fuel radius) (circle_fuel radius) tex x y radius
            color (init_vars radius) (rgb tex);
  Ok (with_rgb tex p).

(** ** [_mirror] and [_flip] *)

(** [void _mirror(texture_t* tex)] *)
Definition _mirror (hp : heap) (tex : texture_t) : heap * result texture_t :=
  let '(mirrored, hp') :=
    malloc hp (u64 (u64 (width tex * height tex) * sizeof_color_t)) in
  (hp',
   do mirrored <-
     for_lt 0 (height tex) (fun y m =>
       for_lt 0 (width tex) (fun x m =>
         do c <- load (rgb tex)
                   (u64 (u64 (y * width tex) + u64 (u64 (width tex - 1) - x)));
         store m (u64 (u64 (y * width tex) + x)) c) m) mirrored;
   do p <- for_lt 0 (u64 (width tex * height tex)) (fun i p =>
             do c <- load mirrored i; store p i c) (rgb tex);
   Ok (with_rgb tex p)).

(** [void _flip(texture_t* tex)] *)
Definition _flip (hp : heap) (tex : texture_t) : heap * result texture_t :=
  let '(flipped, hp') :=
    malloc hp (u64 (u64 (width tex * height tex) * sizeof_color_t)) in
  (hp',
   do flipped <-
     for_lt 0 (height tex) (fun y m =>
       for_lt 0 (width tex) (fun x m =>
         do c <- load (rgb tex)
                   (u64 (u64 (u64 (u64 (height tex - 1) - y) * width tex) + x));
         store m (u64 (u64 (y * width tex) + x)) c) m) flipped;
   do p <- for_lt 0 (u64 (width tex * height tex)) (fun i p =>
             do c <- load flipped i; store p i c) (rgb tex);
   Ok (with_rgb tex p)).

(** ** [_grunge], [_smear] and the builder *)

(** [void _grunge(texture_t* tex, float intensity)]:
    [tex->rgb[0].b += intensity;] *)
Definition _grunge (tex : texture_t) (intensity : float) : result texture_t :=
  do p <- modify (rgb tex) 0 (fun c => set_b c (fadd (b c) intensity));
  Ok (with_rgb tex p).

(** [void _smear(texture_t* tex, color_t rgb)]: [tex->rgb[0] = rgb;] *)
Definition _smear (tex : texture_t) (color : color_t) : result texture_t :=
  do p <- store (rgb tex) 0 color;
  Ok (with_rgb tex p).

(** [texture_t _create(texture_t tex) { return tex; }] *)
Definition _create (tex : texture_t) : texture_t := tex.

(** The calls that the macros [noise], [grunge], [smear], [rect], [circle],
    [flip] and [mirror] expand to, each on [&temp]. *)
Inductive op : Type :=
| Noise (intensity : float)
| Grunge (intensity : float)
| Smear (color : color_t)
| Rect (x y rw rh : Z) (color : color_t)
| Circle (x y radius : Z) (color : color_t)
| Flip
| Mirror.

(** The state of the generator after [n] calls of [rand] from the state
    [s], and the number that the next call returns. *)
Definition draws {rng : Type} (rand : rng -> Z * rng) (n : nat) (s : rng) : rng :=
  Nat.iter n (fun s => snd (rand s)) s.

Definition draw {rng : Type} (rand : rng -> Z * rng) (n : nat) (s : rng) : Z :=
  fst (rand (draws rand n s)).

Section Builder.

Variable rng : Type.
Variable srand : Z -> rng.
Variable rand : rng -> Z * rng.
Variable RAND_MAX : Z.

(** One call on [temp]; [g] is the state of the generator and [hp] the
    answers that [malloc] still has to give. *)
Definition run_op (g : rng) (hp : heap) (o : op) (temp : texture_t)
  : result (rng * heap * texture_t) :=
  match o with
  | Noise intensity =>
      do st <- _noise rng srand rand RAND_MAX g temp intensity;
      Ok (fst st, hp, snd st)
  | Grunge intensity => do t <- _grunge temp intensity; Ok (g, hp, t)
  | Smear color => do t <- _smear temp color; Ok (g, hp, t)
  | Rect x y rw rh color => do t <- _rect temp x y rw rh color; Ok (g, hp, t)
  | Circle x y radius color => do t <- _circle temp x y radius color; Ok (g, hp, t)
  | Flip => let '(hp', res) := _flip hp temp in do t <- res; Ok (g, hp', t)
  | Mirror => let '(hp', res) := _mirror hp temp in do t <- res; Ok (g, hp', t)
  end.

(** The calls of [__VA_ARGS__], from left to right. *)
Fixpoint run_ops (g : rng) (hp : heap) (ops : list op) (temp : texture_t)
  : result (rng * heap * texture_t) :=
  match ops with
  | [] => Ok (g, hp, temp)
  | o :: ops' =>
      do st <- run_op g hp o temp;
      run_ops (fst (fst st)) (snd (fst st)) ops' (snd st)
  end.

(** [#define tex_build(tex, ...)
       ({texture_t temp = tex; __VA_ARGS__; _create(temp); })].
    [temp] is a copy of the structure [tex]: it shares the pixel store of
    [tex], which the calls mutate. *)
Definition tex_build (g : rng) (hp : heap) (tex : texture_t) (ops : list op)
  : result (rng * heap * texture_t) :=
  let temp := tex in
  do st <- run_ops g hp ops temp;
  Ok (fst (fst st), snd (fst st), _create (snd st)).

End Builder.

(** ** Regions of the buffer *)

(** Column [j] of row [i] lies in the half-open rectangle
    [x, x + rw) x [y, y + rh). *)
Definition in_rect (x y rw rh j i : Z) : bool :=
  (x <=? j) && (j <? x + rw) && (y <=? i) && (i <? y + rh).

(** The part of that rectangle that [_rect] has filled when its loops are
    at row [i0], column [j0]: the rows before [i0], and the columns before
    [j0] of row [i0]. *)
Definition rect_done (x y rw i0 j0 j i : Z) : bool :=
  ((y <=? i) && (i <? i0) && (x <=? j) && (j <? x + rw))
  || ((i =? i0) && (x <=? j) && (j <? j0)).

(** Column [j] of row [i] is within Euclidean distance [radius] of the
    centre [(x, y)]. *)
Definition in_disk (x y radius j i : Z) : bool :=
  (j - x) * (j - x) + (i - y) * (i - y) <=? radius * radius.

(** What holds of the local variables of [_circle] whenever the guard of
    the [while] loop is evaluated: [err] is the squared distance of
    [(cx, cy)] from the circle, and it is not positive when the body is
    entered. *)
Definition circle_inv (radius : Z) (v : circle_vars) : Prop :=
  0 <= cy v /\ -1 <= cx v <= radius - 1 /\ cy v <= radius /\
  dy v = 2 * cy v + 1 /\ dx v = 2 * (radius - 1 - cx v) + 1 /\
  err v = cx v * cx v + cy v * cy v - radius * radius /\
  1 - 2 * radius <= err v /\
  (cy v <= cx v -> err v <= 0).

(** The store [p] has the size of [cells], and the pixels that are not
    [allowed] to be written have the value they have in [cells]. *)
Definition frame (tex : texture_t) (cells : list color_t)
    (allowed : Z -> Z -> bool) (p : ptr) : Prop :=
  exists cs, p = Block cs /\ length cs = length cells /\
    forall j i, 0 <= j < width tex -> 0 <= i < height tex ->
      allowed j i = false ->
      cs !! Z.to_nat (i * width tex + j) = cells !! Z.to_nat (i * width tex + j).

(** The store [p] is allocated and has [n] cells. *)
Definition sized (n : nat) (p : ptr) : Prop :=
  exists cs, p = Block cs /\ length cs = n.

(** The buffer [tex'] has the dimensions of [tex] and a store of the same
    size. *)
Definition same_shape (tex tex' : texture_t) : Prop :=
  width tex' = width tex /\ height tex' = height tex /\
  forall n, sized n (rgb tex) -> sized n (rgb tex').

(** The store [p] holds, in every cell, what [cells] holds there or the
    colour [c]. *)
Definition painted (cells : list color_t) (c : color_t) (p : ptr) : Prop :=
  exists cs, p = Block cs /\ length cs = length cells /\
    forall k : nat, cs !! k = cells !! k \/ cs !! k = Some c.

(** ** Data for the examples *)

Definition black : color_t := mk_color f_zero f_zero f_zero f_one.
Definition white : color_t := mk_color f_one f_one f_one f_one.

(** A 2 by 2 buffer whose pixels are not all alike. *)
Definition corner : texture_t :=
  {| width := 2; height := 2; rgb := Block [white; black; black; black] |}.

(** A chain of calls that uses every operation. *)
Definition recipe : list op :=
  [Noise f_half; Rect 1 1 2 2 white; Mirror; Circle 2 2 2 black; Flip;
   Smear white; Grunge f_half].

(** A [w] by [h] buffer filled with [c]. *)
Definition solid (w h : Z) (c : color_t) : texture_t :=
  {| width := w; height := h; rgb := Block (replicate (Z.to_nat (w * h)) c) |}.

(** * Properties *)

(** ** Machine integers *)

Lemma u32_small z : 0 <= z <= UINT_MAX -> u32 z = z.
Proof. unfold u32, UINT_MAX. intros H. apply Z.mod_small. lia. Qed.

Lemma u64_small z : 0 <= z <= SIZE_MAX -> u64 z = z.
Proof. unfold u64, SIZE_MAX. intros H. apply Z.mod_small. lia. Qed.

Lemma s32_small z : - INT_MAX - 1 <= z <= INT_MAX -> s32 z = z.
Proof.
  unfold s32, INT_MAX. intros H.
  rewrite Z.mod_small by lia. lia.
Qed.

Lemma u32_range z : 0 <= u32 z <= UINT_MAX.
Proof.
  unfold u32, UINT_MAX.
  pose proof (Z.mod_pos_bound z 4294967296 ltac:(lia)). lia.
Qed.

Lemma u64_range z : 0 <= u64 z <= SIZE_MAX.
Proof.
  unfold u64, SIZE_MAX.
  pose proof (Z.mod_pos_bound z 18446744073709551616 ltac:(lia)). lia.
Qed.

Lemma s32_range z : - INT_MAX - 1 <= s32 z <= INT_MAX.
Proof.
  unfold s32, INT_MAX.
  pose proof (Z.mod_pos_bound (z + 2147483648) 4294967296 ltac:(lia)). lia.
Qed.

(** An [unsigned int] sum that wrapped is smaller than either operand. *)
Lemma u32_add_wrapped a b :
  0 <= a <= UINT_MAX -> 0 <= b <= UINT_MAX -> UINT_MAX < a + b ->
  u32 (a + b) = a + b - 4294967296.
Proof.
  unfold u32, UINT_MAX. intros Ha Hb Hab.
  symmetry. apply (Z.mod_unique_pos _ _ 1); lia.
Qed.

(** A negative [unsigned int] difference wraps to the top of the range. *)
Lemma u32_sub_wrapped a b :
  0 <= a <= UINT_MAX -> 0 <= b <= UINT_MAX -> a < b ->
  u32 (a - b) = a - b + 4294967296.
Proof.
  unfold u32, UINT_MAX. intros Ha Hb Hab.
  symmetry. apply (Z.mod_unique_pos _ _ (-1)); lia.
Qed.

(** [int] to [unsigned int] and back is the identity on [int] values. *)
Lemma s32_u32 z : s32 (u32 z) = s32 z.
Proof.
  unfold s32, u32.
  rewrite Zplus_mod_idemp_l. reflexivity.
Qed.

Lemma u32_s32 z : u32 (s32 z) = u32 z.
Proof.
  unfold s32, u32.
  rewrite Zminus_mod_idemp_l.
  replace (z + 2147483648 - 2147483648) with z by lia. reflexivity.
Qed.

Lemma u32_add_l a b : u32 (u32 a + b) = u32 (a + b).
Proof. unfold u32. apply Zplus_mod_idemp_l. Qed.

Lemma u32_add_r a b : u32 (a + u32 b) = u32 (a + b).
Proof. unfold u32. apply Zplus_mod_idemp_r. Qed.

Lemma u32_sub_l a b : u32 (u32 a - b) = u32 (a - b).
Proof. unfold u32. apply Zminus_mod_idemp_l. Qed.

Lemma u32_sub_r a b : u32 (a - u32 b) = u32 (a - b).
Proof. unfold u32. apply Zminus_mod_idemp_r. Qed.

Lemma shiftl_1 z : Z.shiftl z 1 = 2 * z.
Proof. rewrite Z.shiftl_mul_pow2 by lia. lia. Qed.

(** ** The result monad, the store and the loops *)

Lemma store_ok cells i c :
  0 <= i < Z.of_nat (length cells) ->
  store (Block cells) i c = Ok (Block (<[Z.to_nat i := c]> cells)).
Proof.
  intros H. unfold store.
  destruct (Z.leb_spec 0 i); [|lia].
  destruct (Z.ltb_spec i (Z.of_nat (length cells))); [|lia].
  reflexivity.
Qed.

Lemma load_ok cells i c :
  0 <= i -> cells !! Z.to_nat i = Some c -> load (Block cells) i = Ok c.
Proof.
  intros Hi Hc. unfold load.
  pose proof (lookup_lt_Some _ _ _ Hc) as Hlt.
  destruct (Z.leb_spec 0 i); [|lia].
  destruct (Z.ltb_spec i (Z.of_nat (length cells))); [|lia].
  simpl. rewrite Hc. reflexivity.
Qed.

Lemma with_rgb_id tex : with_rgb tex (rgb tex) = tex.
Proof. destruct tex. reflexivity. Qed.

(** A loop over an empty range returns at once. *)
Lemma for_lt_empty {St : Type} lo hi (body : Z -> St -> result St) s :
  hi <= lo -> for_lt lo hi body s = Ok s.
Proof.
  intros H. unfold for_lt.
  replace (Z.to_nat (hi - lo)) with O by lia. reflexivity.
Qed.

(** The invariant rule of the counted loop: an invariant that every
    iteration re-establishes holds when the loop ends, and the loop ends. *)
Lemma for_count_inv {St : Type} (Inv : Z -> St -> Prop) body n :
  forall i s,
    Inv i s ->
    (forall k t, i <= k < i + Z.of_nat n -> Inv k t ->
                 exists t', body k t = Ok t' /\ Inv (k + 1) t') ->
    exists s', for_count n i body s = Ok s' /\ Inv (i + Z.of_nat n) s'.
Proof.
  induction n as [|n IH]; intros i s Hi Hstep.
  - exists s. split; [reflexivity|].
    replace (i + Z.of_nat 0) with i by lia. exact Hi.
  - destruct (Hstep i s ltac:(lia) Hi) as (t & Hb & Ht).
    destruct (IH (i + 1) t Ht) as (s' & Hl & Hs').
    + intros k u Hk Hu. apply Hstep; [lia|exact Hu].
    + exists s'. split.
      * simpl. rewrite Hb. simpl. exact Hl.
      * replace (i + Z.of_nat (S n)) with (i + 1 + Z.of_nat n) by lia.
        exact Hs'.
Qed.

Lemma for_lt_inv {St : Type} (Inv : Z -> St -> Prop) body lo hi s :
  lo <= hi ->
  Inv lo s ->
  (forall k t, lo <= k < hi -> Inv k t ->
               exists t', body k t = Ok t' /\ Inv (k + 1) t') ->
  exists s', for_lt lo hi body s = Ok s' /\ Inv hi s'.
Proof.
  intros Hle Hi Hstep. unfold for_lt.
  destruct (for_count_inv Inv body (Z.to_nat (hi - lo)) lo s Hi) as (s' & Hl & Hs').
  - intros k t Hk. apply Hstep. lia.
  - exists s'. split; [exact Hl|].
    replace hi with (lo + Z.of_nat (Z.to_nat (hi - lo))) by lia.
    exact Hs'.
Qed.

(** ** [texture] *)

(** The block that a granted request of [n] cells returns. *)
Lemma malloc_granted junk hp n :
  0 <= n -> n * sizeof_color_t <= SIZE_MAX ->
  malloc (Some junk :: hp) (u64 (u64 n * sizeof_color_t))
  = (Block (replicate (Z.to_nat n) junk), hp).
Proof.
  unfold sizeof_color_t, SIZE_MAX. intros H0 H1. unfold malloc.
  rewrite (u64_small n) by (unfold SIZE_MAX; lia).
  rewrite u64_small by (unfold SIZE_MAX; lia).
  unfold sizeof_color_t. rewrite Z.div_mul by lia. reflexivity.
Qed.

(** The fill loop of [texture] overwrites a block of [n] cells. *)
Lemma fill_loop n c cells :
  Z.of_nat (length cells) = n ->
  for_lt 0 n (fun i p => store p i c) (Block cells)
  = Ok (Block (replicate (Z.to_nat n) c)).
Proof.
  intros Hlen.
  destruct (for_lt_inv
    (fun k p => exists cs, p = Block cs /\ length cs = length cells /\
                  forall j, (j < Z.to_nat k)%nat -> cs !! j = Some c)
    (fun i p => store p i c) 0 n (Block cells)) as (p & Hp & cs & -> & Hl & Hall).
  - lia.
  - exists cells. split; [reflexivity|]. split; [reflexivity|]. intros j Hj. lia.
  - intros k t Hk (cs & -> & Hl & Hall).
    exists (Block (<[Z.to_nat k := c]> cs)). split.
    + apply store_ok. lia.
    + exists (<[Z.to_nat k := c]> cs). split; [reflexivity|].
      split; [rewrite length_insert; exact Hl|].
      intros j Hj. destruct (decide (j = Z.to_nat k)) as [->|Hne].
      * apply list_lookup_insert_eq. lia.
      * rewrite list_lookup_insert_ne by congruence. apply Hall. lia.
  - rewrite Hp. f_equal. f_equal. symmetry.
    apply replicate_as_Forall. split; [lia|].
    apply Forall_lookup. intros j x Hx.
    pose proof (lookup_lt_Some _ _ _ Hx) as Hlt.
    rewrite Hall in Hx by lia. congruence.
Qed.

(** The buffers that [texture] returns, [solid w h c] for dimensions whose
    product is an [int], are well formed. *)
Lemma solid_wf w h c :
  0 < w -> 0 < h -> w * h <= INT_MAX -> wf_texture (solid w h c) = true.
Proof.
  unfold INT_MAX. intros Hw Hh Hwh.
  assert (w <= 2147483647 /\ h <= 2147483647) as [Hw' Hh'] by nia.
  unfold wf_texture, solid. cbn [rgb width height].
  rewrite length_replicate.
  unfold INT_MAX, SIZE_MAX, sizeof_color_t.
  repeat (apply andb_true_intro; split);
    first [apply Z.leb_le | apply Z.eqb_eq]; lia.
Qed.

(** C2, as the code has it: for every width [w > 0] and height [h > 0]
    whose product is an [int] ([w * h <= INT_MAX]) and every fill colour
    [c], when the allocation is granted [texture w h c] returns a buffer
    whose width is [w], whose height is [h] and whose store holds exactly
    [w * h] colours, all equal to [c]. *)
Theorem texture_filled (hp : heap) (junk : color_t) (w h : Z) (c : color_t) :
  0 < w -> 0 < h -> w * h <= INT_MAX ->
  texture (Some junk :: hp) w h c
  = (hp, Ok {| width := w; height := h;
               rgb := Block (replicate (Z.to_nat (w * h)) c) |}).
Proof.
  unfold INT_MAX. intros Hw Hh Hwh. unfold texture.
  assert (w <= 2147483647 /\ h <= 2147483647) as [Hw' Hh'] by nia.
  rewrite s32_small by (unfold INT_MAX; nia).
  rewrite malloc_granted by (unfold sizeof_color_t, SIZE_MAX; nia).
  rewrite fill_loop by (rewrite length_replicate; lia).
  simpl. rewrite !u64_small by (unfold SIZE_MAX; lia). reflexivity.
Qed.

Lemma texture_filled_witness :
  texture [Some black] 2 3 white = ([], Ok (solid 2 3 white)).
Proof. apply (texture_filled [] black 2 3 white); unfold INT_MAX; lia. Defined.

(** C2 fails as stated: for [w = h = 65536] the [int] product [w * h] wraps
    to 0, so the store that [texture] returns holds no colour at all. *)
Lemma texture_overflow_counterexample :
  0 < 65536 /\ 0 < 65536 /\
  exists tex, snd (texture [Some black] 65536 65536 white) = Ok tex /\
              width tex = 65536 /\ height tex = 65536 /\
              store_size (rgb tex) = 0 /\
              store_size (rgb tex) <> 65536 * 65536.
Proof.
  split; [lia|]. split; [lia|].
  exists {| width := 65536; height := 65536; rgb := Block [] |}.
  repeat split; try reflexivity. simpl. lia.
Qed.

(** When the request is granted, [texture] returns, whatever [w] and [h]. *)
Lemma texture_returns junk hp w h c :
  exists tex, snd (texture (Some junk :: hp) w h c) = Ok tex.
Proof.
  unfold texture.
  pose proof (s32_range (w * h)) as Hn. unfold INT_MAX in Hn.
  destruct (Z.le_gt_cases (s32 (w * h)) 0) as [Hneg|Hpos].
  - destruct (malloc _ _) as [p hp']. simpl.
    rewrite for_lt_empty by lia. simpl. eauto.
  - rewrite malloc_granted by (unfold sizeof_color_t, SIZE_MAX; lia).
    rewrite fill_loop by (rewrite length_replicate; lia).
    simpl. eauto.
Qed.

(** C9, as the code has it: [texture] makes exactly one allocation request,
    whatever the answer (nothing is retried), and has no error result: when
    the request is granted it returns a buffer, for every [w], [h] and
    colour. *)
Theorem texture_single_request (ans : option color_t) (hp : heap) (w h : Z)
    (c : color_t) :
  fst (texture (ans :: hp) w h c) = hp /\
  (forall junk, ans = Some junk ->
     exists tex, snd (texture (ans :: hp) w h c) = Ok tex).
Proof.
  split.
  - unfold texture. destruct ans; reflexivity.
  - intros junk ->. apply texture_returns.
Qed.

Lemma texture_single_request_witness :
  fst (texture [Some black] 2 2 white) = [] /\
  exists tex, snd (texture [Some black] 2 2 white) = Ok tex.
Proof.
  destruct (texture_single_request (Some black) [] 2 2 white) as [Hone Hret].
  split; [exact Hone|]. apply (Hret black). reflexivity.
Defined.

(** C9 fails as stated: when the allocation of a 2 by 2 buffer is refused,
    [texture] does not return to its caller at all: the first iteration of
    the fill loop writes through the null pointer. *)
Lemma texture_refused_counterexample :
  fst (malloc [None] (u64 (u64 (s32 (2 * 2)) * sizeof_color_t))) = NULL /\
  snd (texture [None] 2 2 white) = Fault NullPointer /\
  ~ (exists tex, snd (texture [None] 2 2 white) = Ok tex /\ rgb tex = NULL).
Proof.
  split; [reflexivity|]. split; [reflexivity|].
  intros (tex & H & _). discriminate H.
Qed.

(** ** [_rect] *)

Lemma for_count_skip {St : Type} (body : Z -> St -> result St) n :
  (forall k t, body k t = Ok t) ->
  forall i s, for_count n i body s = Ok s.
Proof.
  intros Hb. induction n as [|n IH]; intros i s; simpl.
  - reflexivity.
  - rewrite Hb. simpl. apply IH.
Qed.

(** C3: for every buffer and all [unsigned int] arguments such that
    [x + rw] exceeds the buffer width or [y + rh] exceeds the buffer
    height, [_rect] returns normally and leaves the buffer as it was. *)
Theorem rect_out_of_bounds_noop (tex : texture_t) (x y rw rh : Z) (c : color_t) :
  0 <= x <= UINT_MAX -> 0 <= y <= UINT_MAX ->
  0 <= rw <= UINT_MAX -> 0 <= rh <= UINT_MAX ->
  width tex < x + rw \/ height tex < y + rh ->
  _rect tex x y rw rh c = Ok tex.
Proof.
  intros Hx Hy Hrw Hrh Hout. unfold _rect.
  destruct (_ || _) eqn:Hchk; [reflexivity|].
  apply orb_false_elim in Hchk as [Hc1 Hc2].
  apply Z.ltb_ge in Hc1, Hc2.
  assert (for_lt y (u32 (y + rh))
            (fun i p => for_lt x (u32 (x + rw))
               (fun j p => store p (u64 (u64 (i * width tex) + j)) c) p)
            (rgb tex) = Ok (rgb tex)) as ->.
  { destruct Hout as [Hw|Hh].
    - (* the column bound wrapped: every row is an empty loop *)
      destruct (Z.le_gt_cases (x + rw) UINT_MAX) as [Hfit|Hwrap].
      { rewrite u32_small in Hc1 by lia. lia. }
      unfold for_lt at 1. apply for_count_skip. intros k t.
      apply for_lt_empty. rewrite u32_add_wrapped by lia. unfold UINT_MAX in *. lia.
    - (* the row bound wrapped: the outer loop is empty *)
      destruct (Z.le_gt_cases (y + rh) UINT_MAX) as [Hfit|Hwrap].
      { rewrite u32_small in Hc2 by lia. lia. }
      apply for_lt_empty. rewrite u32_add_wrapped by lia. unfold UINT_MAX in *. lia. }
  simpl. rewrite with_rgb_id. reflexivity.
Qed.

Lemma rect_out_of_bounds_noop_witness :
  _rect (solid 4 4 black) 3 1 2 2 white = Ok (solid 4 4 black).
Proof.
  apply (rect_out_of_bounds_noop (solid 4 4 black) 3 1 2 2 white);
    unfold UINT_MAX; simpl; lia.
Defined.

(** ** [_circle] *)

(** C10: for every buffer, centre and colour, [_circle] with radius 0 writes
    no pixel: [cx] starts at [-1], the guard [cx >= cy] of the [while] loop
    fails at once, and the buffer is returned as it was. *)
Theorem circle_radius_zero (tex : texture_t) (x y : Z) (c : color_t) :
  cx (init_vars 0) = -1 /\ _circle tex x y 0 c = Ok tex.
Proof.
  split; [reflexivity|].
  unfold _circle. change (circle_fuel 0) with 1%nat.
  change (init_vars 0) with {| cx := -1; cy := 0; dx := 1; dy := 1; err := 1 |}.
  simpl. rewrite with_rgb_id. reflexivity.
Qed.

(** C6 fails on the code: the circle of radius 3 around the centre (1,4) of
    an 8 by 8 buffer.  In the first iteration ([cx = 2], [cy = 0]) the span
    of row 4 is the columns -1 .. 3.  The loop condition [i <= x + cx]
    compares as [unsigned int], so it is false for the first column
    [i = -1] and the whole span is rejected: the candidates in columns
    0 .. 3 of row 4, all inside the buffer and the disk, are never written.
    At the right edge (centre (6,4)) the columns 4 .. 7 of row 4 are
    written and only the columns 8 and 9 are skipped. *)
Theorem circle_left_span_rejected :
  (init_vars 3 = {| cx := 2; cy := 0; dx := 1; dy := 1; err := -5 |} /\
   s32 (u32 (1 - u32 2)) = -1 /\ u32 (1 + u32 2) = 3 /\
   (u32 (-1) <=? 3) = false) /\
  (exists tex', _circle (solid 8 8 black) 1 4 3 white = Ok tex' /\
     pixel tex' 0 4 = Some black /\ pixel tex' 1 4 = Some black /\
     pixel tex' 2 4 = Some black /\ pixel tex' 3 4 = Some black) /\
  (exists tex', _circle (solid 8 8 black) 6 4 3 white = Ok tex' /\
     pixel tex' 4 4 = Some white /\ pixel tex' 5 4 = Some white /\
     pixel tex' 6 4 = Some white /\ pixel tex' 7 4 = Some white).
Proof.
  split; [repeat split|]. split.
  - eexists. split; [vm_compute; reflexivity|]. repeat split.
  - eexists. split; [vm_compute; reflexivity|]. repeat split.
Qed.

(** ** [_noise] *)

Lemma modify_ok cells i c f :
  0 <= i -> cells !! Z.to_nat i = Some c ->
  modify (Block cells) i f = Ok (Block (<[Z.to_nat i := f c]> cells)).
Proof.
  intros Hi Hc. unfold modify. rewrite (load_ok _ _ _ Hi Hc). simpl.
  apply store_ok. pose proof (lookup_lt_Some _ _ _ Hc). lia.
Qed.

Lemma SFltb_leb x y : SFltb x y = true -> SFleb x y = true.
Proof.
  unfold SFltb, SFleb. destruct (SFcompare x y) as [[]|]; congruence.
Qed.

Lemma fmaxf_zero_nonneg x :
  is_nan (fmaxf x f_zero) = false /\ SFleb f_zero (fmaxf x f_zero) = true.
Proof. destruct x as [s|s| |s m e]; try destruct s; split; reflexivity. Qed.

(** The clamp of [_noise], [fminf(fmaxf(x, 0.0f), 1.0f)], lands in [0,1]
    for every [x]: infinities and NaN included. *)
Lemma clamp_in_unit x : in_unit (fminf (fmaxf x f_zero) f_one) = true.
Proof.
  destruct (fmaxf_zero_nonneg x) as [Hnan Hpos].
  unfold fminf. rewrite Hnan. simpl is_nan. cbv iota.
  destruct (SFltb (fmaxf x f_zero) f_one) eqn:Hlt.
  - unfold in_unit. rewrite Hpos, (SFltb_leb _ _ Hlt). reflexivity.
  - reflexivity.
Qed.

(** The clamp turns the zero with a minus sign into the plain zero. *)
Lemma clamp_negative_zero :
  fminf (fmaxf (S754_zero true) f_zero) f_one = f_zero.
Proof. reflexivity. Qed.

Section NoiseFacts.

Variable rng : Type.
Variable srand : Z -> rng.
Variable rand : rng -> Z * rng.
Variable RAND_MAX : Z.

Lemma noise_body_ok intensity i g0 cells c :
  0 <= i -> cells !! Z.to_nat i = Some c ->
  exists n1 n2 n3 g3,
    noise_body rng rand RAND_MAX intensity i (g0, Block cells)
    = Ok (g3, Block (<[Z.to_nat i := noisy RAND_MAX intensity n1 n2 n3 c]> cells)).
Proof.
  intros Hi Hc. unfold noise_body.
  pose proof (lookup_lt_Some _ _ _ Hc) as Hlt.
  destruct (rand g0) as [n1 g1]. destruct (rand g1) as [n2 g2].
  destruct (rand g2) as [n3 g3].
  exists n1, n2, n3, g3.
  rewrite (modify_ok _ _ _ _ Hi Hc). simpl bind.
  repeat (erewrite modify_ok;
          [ simpl bind; rewrite list_insert_insert_eq
          | exact Hi
          | apply list_lookup_insert_eq; exact Hlt ]).
  reflexivity.
Qed.

Lemma noisy_post intensity n1 n2 n3 c :
  noise_post c (noisy RAND_MAX intensity n1 n2 n3 c).
Proof.
  unfold noise_post, noisy. simpl.
  repeat split; apply clamp_in_unit.
Qed.

(** C1: [_noise] reseeds the generator with [srand(1)] when it is entered,
    so its outcome (the buffer and the state the generator is left in)
    does not depend on the state [g1] or [g2] the generator was in before
    the call: on the same buffer and with the same intensity, two runs
    end in the same outcome, that of a run on a freshly seeded
    generator. *)
Theorem noise_deterministic (g1 g2 : rng) (tex : texture_t) (intensity : float) :
  _noise rng srand rand RAND_MAX g1 tex intensity
  = _noise rng srand rand RAND_MAX g2 tex intensity /\
  _noise rng srand rand RAND_MAX g1 tex intensity
  = _noise rng srand rand RAND_MAX (srand 1) tex intensity.
Proof. split; reflexivity. Qed.

(** C8: for every buffer and every intensity, [_noise] returns, the
    dimensions and the number of pixels are unchanged, and every pixel
    has its r, g and b channels in [0,1] and its alpha channel as
    before the call. *)
Theorem noise_clamped (g0 : rng) (tex : texture_t) (intensity : float) :
  wf_texture tex = true ->
  exists g' tex' cells cells',
    _noise rng srand rand RAND_MAX g0 tex intensity = Ok (g', tex') /\
    width tex' = width tex /\ height tex' = height tex /\
    rgb tex = Block cells /\ rgb tex' = Block cells' /\
    length cells' = length cells /\
    forall i c, cells !! i = Some c ->
      exists c', cells' !! i = Some c' /\ noise_post c c'.
Proof.
  unfold wf_texture. destruct (rgb tex) as [|cells] eqn:Hrgb; [discriminate|].
  intros Hwf. repeat (apply andb_prop in Hwf as [Hwf ?]).
  unfold sizeof_color_t, SIZE_MAX in *.
  assert (u64 (width tex * height tex) = Z.of_nat (length cells)) as Hn.
  { rewrite u64_small by (unfold SIZE_MAX; lia). lia. }
  unfold _noise. rewrite Hn, Hrgb.
  destruct (for_lt_inv
    (fun k (st : rng * ptr) => exists cs, snd st = Block cs /\
       length cs = length cells /\
       (forall j c, (j < Z.to_nat k)%nat -> cells !! j = Some c ->
          exists c', cs !! j = Some c' /\ noise_post c c') /\
       (forall j, (Z.to_nat k <= j)%nat -> cs !! j = cells !! j))
    (noise_body rng rand RAND_MAX intensity) 0 (Z.of_nat (length cells))
    (srand 1, Block cells))
    as ([g' p] & Hrun & cs & Hp & Hlen & Hdone & _).
  - lia.
  - exists cells. split; [reflexivity|]. split; [reflexivity|].
    split; [intros j c Hj; lia|reflexivity].
  - intros k [g p] Hk (cs & Hp & Hlen & Hdone & Hrest). simpl in Hp. subst p.
    destruct (lookup_lt_is_Some_2 cells (Z.to_nat k) ltac:(lia)) as [c Hc].
    assert (cs !! Z.to_nat k = Some c) as Hcs by (rewrite Hrest; [exact Hc|lia]).
    destruct (noise_body_ok intensity k g cs c ltac:(lia) Hcs)
      as (n1 & n2 & n3 & g3 & Hbody).
    eexists. split; [exact Hbody|].
    eexists. split; [reflexivity|].
    split; [rewrite length_insert; exact Hlen|]. split.
    + intros j c0 Hj Hc0. destruct (decide (j = Z.to_nat k)) as [->|Hne].
      * rewrite list_lookup_insert_eq by lia.
        eexists. split; [reflexivity|].
        assert (c0 = c) as -> by congruence. apply noisy_post.
      * rewrite list_lookup_insert_ne by congruence.
        apply Hdone; [lia|exact Hc0].
    + intros j Hj. rewrite list_lookup_insert_ne by lia. apply Hrest. lia.
  - simpl in Hp. subst p.
    exists g', (with_rgb tex (Block cs)), cells, cs.
    split; [rewrite Hrun; reflexivity|].
    repeat (split; [reflexivity|]). split; [exact Hlen|].
    intros i c Hc. apply Hdone; [|exact Hc].
    pose proof (lookup_lt_Some _ _ _ Hc). lia.
Qed.

End NoiseFacts.

Lemma noise_clamped_witness :
  wf_texture (solid 2 2 white) = true /\
  exists g' tex' cells cells',
    _noise SampleRand.rng SampleRand.srand SampleRand.rand SampleRand.RAND_MAX
      0 (solid 2 2 white) (S754_infinity false) = Ok (g', tex') /\
    width tex' = width (solid 2 2 white) /\
    height tex' = height (solid 2 2 white) /\
    rgb (solid 2 2 white) = Block cells /\ rgb tex' = Block cells' /\
    length cells' = length cells /\
    forall i c, cells !! i = Some c ->
      exists c', cells' !! i = Some c' /\ noise_post c c'.
Proof.
  split; [reflexivity|].
  apply (noise_clamped SampleRand.rng SampleRand.srand SampleRand.rand
           SampleRand.RAND_MAX 0 (solid 2 2 white) (S754_infinity false)).
  reflexivity.
Defined.

(** ** Row-major indexing *)

Ltac zbool :=
  repeat match goal with
         | |- context [?a <=? ?b] => destruct (Z.leb_spec a b)
         | |- context [?a <? ?b] => destruct (Z.ltb_spec a b)
         | |- context [?a =? ?b] => destruct (Z.eqb_spec a b)
         end;
  simpl; try reflexivity; try lia.

Lemma wf_texture_inv tex :
  wf_texture tex = true ->
  exists cells, rgb tex = Block cells /\
    0 <= width tex <= INT_MAX /\ 0 <= height tex <= INT_MAX /\
    Z.of_nat (length cells) = width tex * height tex /\
    width tex * height tex * sizeof_color_t <= SIZE_MAX.
Proof.
  unfold wf_texture. destruct (rgb tex) as [|cells]; [discriminate|].
  intros H. repeat (apply andb_prop in H as [H ?]).
  exists cells. split; [reflexivity|]. lia.
Qed.

(** The index of a pixel inside a [W] by [H] buffer lies inside its store. *)
Lemma index_bound W H i j :
  0 <= i < H -> 0 <= j < W -> 0 <= i * W + j < W * H.
Proof. intros Hi Hj. nia. Qed.

(** Different pixels have different indices. *)
Lemma index_inj W i j i' j' :
  0 <= j < W -> 0 <= j' < W -> 0 <= i -> 0 <= i' ->
  i * W + j = i' * W + j' -> i = i' /\ j = j'.
Proof.
  intros Hj Hj' Hi Hi' Heq.
  assert (i = i') as -> by nia. split; [reflexivity|lia].
Qed.

(** Reading the pixel [(j', i')] after a write to the pixel [(j, i)]. *)
Lemma lookup_insert_pixel W (cells : list color_t) c i j i' j' :
  0 <= j < W -> 0 <= j' < W -> 0 <= i -> 0 <= i' ->
  i * W + j < Z.of_nat (length cells) ->
  <[Z.to_nat (i * W + j) := c]> cells !! Z.to_nat (i' * W + j')
  = if (i' =? i) && (j' =? j) then Some c
    else cells !! Z.to_nat (i' * W + j').
Proof.
  intros Hj Hj' Hi Hi' Hlen.
  destruct (Z.eqb_spec i' i) as [->|Hne]; simpl.
  - destruct (Z.eqb_spec j' j) as [->|Hne].
    + apply list_lookup_insert_eq. nia.
    + apply list_lookup_insert_ne. intros Heq.
      apply Z2Nat.inj in Heq; [lia|nia|nia].
  - apply list_lookup_insert_ne. intros Heq.
    apply Z2Nat.inj in Heq; [|nia|nia].
    apply index_inj in Heq; lia.
Qed.

(** ** [_rect], inside the buffer *)

Section RectFacts.

Variable tex : texture_t.
Variable cells : list color_t.
Variables x y rw rh : Z.
Variable c : color_t.

Hypothesis Hrgb : rgb tex = Block cells.
Hypothesis Hlen : Z.of_nat (length cells) = width tex * height tex.
Hypothesis Hsize : width tex * height tex <= SIZE_MAX.
Hypothesis Hx : 0 <= x.
Hypothesis Hy : 0 <= y.
Hypothesis Hrw : 0 <= rw.
Hypothesis Hrh : 0 <= rh.
Hypothesis Hfitw : x + rw <= width tex.
Hypothesis Hfith : y + rh <= height tex.

(** The state of the store when the loops are at row [i0], column [j0]. *)
Let filled (i0 j0 : Z) (p : ptr) : Prop :=
  exists cs, p = Block cs /\ length cs = length cells /\
    forall j i, 0 <= j < width tex -> 0 <= i < height tex ->
      cs !! Z.to_nat (i * width tex + j)
      = if rect_done x y rw i0 j0 j i then Some c
        else cells !! Z.to_nat (i * width tex + j).

Lemma rect_row i p :
  y <= i < y + rh -> filled i x p ->
  exists p',
    for_lt x (x + rw) (fun j p =>
      store p (u64 (u64 (i * width tex) + j)) c) p = Ok p' /\
    filled (i + 1) x p'.
Proof.
  intros Hi Hp.
  destruct (for_lt_inv (fun j p => filled i j p)
    (fun j p => store p (u64 (u64 (i * width tex) + j)) c) x (x + rw) p)
    as (p' & Hrun & cs & -> & Hl & Hcs).
  - lia.
  - exact Hp.
  - intros j t Hj (cs & -> & Hl & Hcs).
    pose proof (index_bound (width tex) (height tex) i j ltac:(lia) ltac:(lia)).
    rewrite (u64_small (i * width tex)) by nia.
    rewrite u64_small by lia.
    rewrite store_ok by lia.
    eexists. split; [reflexivity|].
    eexists. split; [reflexivity|]. split; [rewrite length_insert; exact Hl|].
    intros j' i' Hj' Hi'.
    rewrite lookup_insert_pixel by lia.
    rewrite Hcs by lia. unfold rect_done. zbool.
  - exists (Block cs). split; [exact Hrun|].
    exists cs. split; [reflexivity|]. split; [exact Hl|].
    intros j' i' Hj' Hi'. rewrite Hcs by lia. unfold rect_done. zbool.
Qed.

Lemma rect_rows :
  exists p',
    for_lt y (y + rh) (fun i p =>
      for_lt x (x + rw) (fun j p =>
        store p (u64 (u64 (i * width tex) + j)) c) p) (Block cells) = Ok p' /\
    filled (y + rh) x p'.
Proof.
  apply (for_lt_inv (fun i p => filled i x p)).
  - lia.
  - exists cells. split; [reflexivity|]. split; [reflexivity|].
    intros j i Hj Hi. unfold rect_done. zbool.
  - intros i t Hi Ht. apply rect_row; assumption.
Qed.

End RectFacts.

(** C4: for every buffer and every rectangle inside its bounds
    ([x + rw <= width] and [y + rh <= height]), [_rect] returns a buffer of
    the same dimensions in which every pixel of the half-open rectangle
    [x, x + rw) x [y, y + rh) equals [c] and every other pixel is as
    before. *)
Theorem rect_in_bounds_fills (tex : texture_t) (x y rw rh : Z) (c : color_t) :
  wf_texture tex = true ->
  0 <= x -> 0 <= y -> 0 <= rw -> 0 <= rh ->
  x + rw <= width tex -> y + rh <= height tex ->
  exists tex',
    _rect tex x y rw rh c = Ok tex' /\
    width tex' = width tex /\ height tex' = height tex /\
    store_size (rgb tex') = store_size (rgb tex) /\
    forall j i, 0 <= j < width tex -> 0 <= i < height tex ->
      pixel tex' j i = if in_rect x y rw rh j i then Some c else pixel tex j i.
Proof.
  intros Hwf Hx Hy Hrw Hrh Hfw Hfh.
  destruct (wf_texture_inv tex Hwf) as (cells & Hrgb & HW & HH & Hlen & Hsz).
  unfold INT_MAX, sizeof_color_t in *.
  destruct (rect_rows tex cells x y rw rh c) as (p' & Hrun & cs & -> & Hl & Hcs);
    try assumption; try lia.
  unfold _rect.
  rewrite !u32_small by (unfold UINT_MAX; lia).
  destruct (Z.ltb_spec (width tex) (x + rw)); [lia|].
  destruct (Z.ltb_spec (height tex) (y + rh)); [lia|].
  simpl orb. cbv iota. rewrite Hrgb, Hrun. simpl bind.
  exists (with_rgb tex (Block cs)).
  split; [reflexivity|]. split; [reflexivity|]. split; [reflexivity|].
  split; [simpl; lia|].
  intros j i Hj Hi. unfold pixel. simpl. rewrite Hrgb.
  rewrite Hcs by lia. unfold rect_done, in_rect. zbool.
Qed.

Lemma rect_in_bounds_fills_witness :
  exists tex',
    _rect (solid 4 4 black) 1 1 2 2 white = Ok tex' /\
    width tex' = 4 /\ height tex' = 4 /\
    store_size (rgb tex') = store_size (rgb (solid 4 4 black)) /\
    forall j i, 0 <= j < 4 -> 0 <= i < 4 ->
      pixel tex' j i
      = if in_rect 1 1 2 2 j i then Some white else pixel (solid 4 4 black) j i.
Proof.
  apply (rect_in_bounds_fills (solid 4 4 black) 1 1 2 2 white);
    first [reflexivity | simpl; lia].
Defined.

(** ** [_mirror] and [_flip] *)

(** Two stores of [W * H] cells that agree on every pixel are equal. *)
Lemma pixelwise_eq W H (cs1 cs2 : list color_t) :
  0 <= W -> 0 <= H ->
  Z.of_nat (length cs1) = W * H -> Z.of_nat (length cs2) = W * H ->
  (forall j i, 0 <= j < W -> 0 <= i < H ->
     cs1 !! Z.to_nat (i * W + j) = cs2 !! Z.to_nat (i * W + j)) ->
  cs1 = cs2.
Proof.
  intros HW HH Hl1 Hl2 Hpx. apply list_eq. intros k.
  destruct (Nat.lt_ge_cases k (length cs1)) as [Hlt|Hge].
  - assert (0 < W) as HWpos by nia.
    pose proof (Z.div_mod (Z.of_nat k) W ltac:(lia)) as Hdm.
    pose proof (Z.mod_pos_bound (Z.of_nat k) W HWpos) as Hmod.
    assert (0 <= Z.of_nat k / W) as Hdiv0 by (apply Z.div_pos; lia).
    assert (Z.of_nat k / W < H) as HdivH.
    { apply Z.div_lt_upper_bound; lia. }
    specialize (Hpx (Z.of_nat k mod W) (Z.of_nat k / W) Hmod ltac:(lia)).
    replace (Z.of_nat k / W * W + Z.of_nat k mod W) with (Z.of_nat k) in Hpx by lia.
    rewrite Nat2Z.id in Hpx. exact Hpx.
  - rewrite !lookup_ge_None_2 by lia. reflexivity.
Qed.

(** The loop that copies the scratch store back overwrites [dst] with
    [src]. *)
Lemma copy_loop (src dst : list color_t) :
  length src = length dst ->
  for_lt 0 (Z.of_nat (length dst))
    (fun i p => do c <- load (Block src) i; store p i c) (Block dst)
  = Ok (Block src).
Proof.
  intros Hlen.
  destruct (for_lt_inv
    (fun k p => exists cs, p = Block cs /\ length cs = length dst /\
                  forall j, (j < Z.to_nat k)%nat -> cs !! j = src !! j)
    (fun i p => do c <- load (Block src) i; store p i c)
    0 (Z.of_nat (length dst)) (Block dst)) as (p & Hp & cs & -> & Hl & Hall).
  - lia.
  - exists dst. split; [reflexivity|]. split; [reflexivity|]. intros j Hj. lia.
  - intros k t Hk (cs & -> & Hl & Hall).
    destruct (lookup_lt_is_Some_2 src (Z.to_nat k) ltac:(lia)) as [c Hc].
    rewrite (load_ok src k c ltac:(lia) Hc). cbn [bind].
    rewrite store_ok by lia.
    eexists. split; [reflexivity|].
    eexists. split; [reflexivity|]. split; [rewrite length_insert; exact Hl|].
    intros j Hj. destruct (decide (j = Z.to_nat k)) as [->|Hne].
    + rewrite list_lookup_insert_eq by lia. congruence.
    + rewrite list_lookup_insert_ne by congruence. apply Hall. lia.
  - rewrite Hp. f_equal. f_equal. apply list_eq. intros j.
    destruct (Nat.lt_ge_cases j (length dst)) as [Hlt|Hge].
    + apply Hall. lia.
    + rewrite !lookup_ge_None_2 by lia. reflexivity.
Qed.

Section GatherFacts.

Variable tex : texture_t.
Variable cells : list color_t.
(** [from y x]: the index that the pixel [(x, y)] of the scratch store is
    read from. *)
Variable from : Z -> Z -> Z.

Hypothesis HW : 0 <= width tex.
Hypothesis HH : 0 <= height tex.
Hypothesis Hlen : Z.of_nat (length cells) = width tex * height tex.
Hypothesis Hsize : width tex * height tex <= SIZE_MAX.
Hypothesis Hfrom : forall y x, 0 <= y < height tex -> 0 <= x < width tex ->
  0 <= from y x < width tex * height tex.

(** The state of the scratch store when the loops are at row [y0],
    column [x0]. *)
Let gathered (y0 x0 : Z) (p : ptr) : Prop :=
  exists cs, p = Block cs /\ length cs = length cells /\
    forall j i, 0 <= j < width tex -> 0 <= i < height tex ->
      i < y0 \/ (i = y0 /\ j < x0) ->
      cs !! Z.to_nat (i * width tex + j) = cells !! Z.to_nat (from i j).

Lemma gather_row y p :
  0 <= y < height tex -> gathered y 0 p ->
  exists p',
    for_lt 0 (width tex) (fun x m =>
      do c <- load (Block cells) (from y x);
      store m (u64 (u64 (y * width tex) + x)) c) p = Ok p' /\
    gathered (y + 1) 0 p'.
Proof.
  intros Hy Hp.
  destruct (for_lt_inv (fun x p => gathered y x p)
    (fun x m => do c <- load (Block cells) (from y x);
                store m (u64 (u64 (y * width tex) + x)) c) 0 (width tex) p)
    as (p' & Hrun & cs & -> & Hl & Hcs).
  - lia.
  - exact Hp.
  - intros x t Hx (cs & -> & Hl & Hcs).
    pose proof (Hfrom y x Hy Hx) as Hf.
    destruct (lookup_lt_is_Some_2 cells (Z.to_nat (from y x)) ltac:(lia)) as [c Hc].
    rewrite (load_ok cells (from y x) c ltac:(lia) Hc). cbn [bind].
    pose proof (index_bound (width tex) (height tex) y x Hy Hx).
    rewrite (u64_small (y * width tex)) by nia.
    rewrite u64_small by lia.
    rewrite store_ok by lia.
    eexists. split; [reflexivity|].
    eexists. split; [reflexivity|]. split; [rewrite length_insert; exact Hl|].
    intros j i Hj Hi Hdone.
    rewrite lookup_insert_pixel by lia.
    destruct (Z.eqb_spec i y) as [->|Hne]; simpl.
    + destruct (Z.eqb_spec j x) as [->|Hne]; [congruence|].
      apply Hcs; lia.
    + apply Hcs; lia.
  - exists (Block cs). split; [exact Hrun|].
    exists cs. split; [reflexivity|]. split; [exact Hl|].
    intros j i Hj Hi Hdone. apply Hcs; lia.
Qed.

Lemma gather_rows junk :
  exists cs,
    for_lt 0 (height tex) (fun y m =>
      for_lt 0 (width tex) (fun x m =>
        do c <- load (Block cells) (from y x);
        store m (u64 (u64 (y * width tex) + x)) c) m)
      (Block (replicate (Z.to_nat (width tex * height tex)) junk))
    = Ok (Block cs) /\
    length cs = length cells /\
    forall j i, 0 <= j < width tex -> 0 <= i < height tex ->
      cs !! Z.to_nat (i * width tex + j) = cells !! Z.to_nat (from i j).
Proof.
  destruct (for_lt_inv (fun y p => gathered y 0 p)
    (fun y m => for_lt 0 (width tex) (fun x m =>
        do c <- load (Block cells) (from y x);
        store m (u64 (u64 (y * width tex) + x)) c) m)
    0 (height tex)
    (Block (replicate (Z.to_nat (width tex * height tex)) junk)))
    as (p' & Hrun & cs & -> & Hl & Hcs).
  - lia.
  - eexists. split; [reflexivity|]. split; [rewrite length_replicate; lia|].
    intros j i Hj Hi Hdone. lia.
  - intros y t Hy Ht. apply gather_row; assumption.
  - exists cs. split; [exact Hrun|]. split; [exact Hl|].
    intros j i Hj Hi. apply Hcs; lia.
Qed.

End GatherFacts.

(** [_mirror] returns the buffer with every row reversed. *)
Lemma mirror_run junk hp tex cells :
  wf_texture tex = true -> rgb tex = Block cells ->
  exists cs,
    _mirror (Some junk :: hp) tex = (hp, Ok (with_rgb tex (Block cs))) /\
    length cs = length cells /\
    forall j i, 0 <= j < width tex -> 0 <= i < height tex ->
      cs !! Z.to_nat (i * width tex + j)
      = cells !! Z.to_nat (i * width tex + (width tex - 1 - j)).
Proof.
  intros Hwf Hrgb.
  destruct (wf_texture_inv tex Hwf) as (cells' & Hrgb' & HW & HH & Hlen & Hsz).
  rewrite Hrgb in Hrgb'. injection Hrgb' as <-.
  unfold INT_MAX, SIZE_MAX, sizeof_color_t in *.
  assert (forall y x, 0 <= y < height tex -> 0 <= x < width tex ->
            u64 (u64 (y * width tex) + u64 (u64 (width tex - 1) - x))
            = y * width tex + (width tex - 1 - x)) as Hidx.
  { intros y x Hy Hx.
    pose proof (index_bound (width tex) (height tex) y (width tex - 1 - x)
                  Hy ltac:(lia)).
    rewrite (u64_small (width tex - 1)) by (unfold SIZE_MAX; lia).
    rewrite (u64_small (width tex - 1 - x)) by (unfold SIZE_MAX; lia).
    rewrite (u64_small (y * width tex)) by (unfold SIZE_MAX; nia).
    apply u64_small. unfold SIZE_MAX. lia. }
  destruct (gather_rows tex cells
              (fun y x => u64 (u64 (y * width tex) + u64 (u64 (width tex - 1) - x)))
              ltac:(lia) ltac:(lia) Hlen ltac:(unfold SIZE_MAX; lia)) with (junk := junk)
    as (cs & Hrun & Hl & Hcs).
  { intros y x Hy Hx. rewrite Hidx by assumption.
    apply index_bound; lia. }
  exists cs. split; [|split; [exact Hl|]].
  - unfold _mirror.
    rewrite malloc_granted by (unfold sizeof_color_t, SIZE_MAX; lia).
    rewrite Hrgb. f_equal. rewrite Hrun. cbn [bind].
    rewrite u64_small by (unfold SIZE_MAX; lia).
    rewrite <- Hlen. rewrite copy_loop by exact Hl. reflexivity.
  - intros j i Hj Hi. rewrite Hcs by assumption.
    rewrite Hidx by assumption. reflexivity.
Qed.

(** [_flip] returns the buffer with the order of its rows reversed. *)
Lemma flip_run junk hp tex cells :
  wf_texture tex = true -> rgb tex = Block cells ->
  exists cs,
    _flip (Some junk :: hp) tex = (hp, Ok (with_rgb tex (Block cs))) /\
    length cs = length cells /\
    forall j i, 0 <= j < width tex -> 0 <= i < height tex ->
      cs !! Z.to_nat (i * width tex + j)
      = cells !! Z.to_nat ((height tex - 1 - i) * width tex + j).
Proof.
  intros Hwf Hrgb.
  destruct (wf_texture_inv tex Hwf) as (cells' & Hrgb' & HW & HH & Hlen & Hsz).
  rewrite Hrgb in Hrgb'. injection Hrgb' as <-.
  unfold INT_MAX, SIZE_MAX, sizeof_color_t in *.
  assert (forall y x, 0 <= y < height tex -> 0 <= x < width tex ->
            u64 (u64 (u64 (u64 (height tex - 1) - y) * width tex) + x)
            = (height tex - 1 - y) * width tex + x) as Hidx.
  { intros y x Hy Hx.
    pose proof (index_bound (width tex) (height tex) (height tex - 1 - y) x
                  ltac:(lia) Hx).
    rewrite (u64_small (height tex - 1)) by (unfold SIZE_MAX; lia).
    rewrite (u64_small (height tex - 1 - y)) by (unfold SIZE_MAX; lia).
    rewrite (u64_small ((height tex - 1 - y) * width tex)) by (unfold SIZE_MAX; nia).
    apply u64_small. unfold SIZE_MAX. lia. }
  destruct (gather_rows tex cells
              (fun y x => u64 (u64 (u64 (u64 (height tex - 1) - y) * width tex) + x))
              ltac:(lia) ltac:(lia) Hlen ltac:(unfold SIZE_MAX; lia)) with (junk := junk)
    as (cs & Hrun & Hl & Hcs).
  { intros y x Hy Hx. rewrite Hidx by assumption.
    apply index_bound; lia. }
  exists cs. split; [|split; [exact Hl|]].
  - unfold _flip.
    rewrite malloc_granted by (unfold sizeof_color_t, SIZE_MAX; lia).
    rewrite Hrgb. f_equal. rewrite Hrun. cbn [bind].
    rewrite u64_small by (unfold SIZE_MAX; lia).
    rewrite <- Hlen. rewrite copy_loop by exact Hl. reflexivity.
  - intros j i Hj Hi. rewrite Hcs by assumption.
    rewrite Hidx by assumption. reflexivity.
Qed.

Lemma wf_with_rgb tex cells cs :
  wf_texture tex = true -> rgb tex = Block cells -> length cs = length cells ->
  wf_texture (with_rgb tex (Block cs)) = true.
Proof.
  unfold wf_texture. intros Hwf Hrgb Hl. rewrite Hrgb in Hwf. simpl.
  rewrite Hl. exact Hwf.
Qed.

Lemma with_rgb_restore tex cells p :
  rgb tex = Block cells -> with_rgb (with_rgb tex p) (Block cells) = tex.
Proof. destruct tex. simpl. intros ->. reflexivity. Qed.

(** C7: for every buffer, [_mirror] applied twice and [_flip] applied
    twice (with their scratch allocations granted) each return the
    original buffer: every pixel has its original value. *)
Theorem mirror_flip_involutive (tex : texture_t) (hp hp' : heap)
    (junk junk' : color_t) :
  wf_texture tex = true ->
  (exists tex1, _mirror (Some junk :: hp) tex = (hp, Ok tex1) /\
                _mirror (Some junk' :: hp') tex1 = (hp', Ok tex)) /\
  (exists tex1, _flip (Some junk :: hp) tex = (hp, Ok tex1) /\
                _flip (Some junk' :: hp') tex1 = (hp', Ok tex)).
Proof.
  intros Hwf.
  destruct (wf_texture_inv tex Hwf) as (cells & Hrgb & HW & HH & Hlen & Hsz).
  split.
  - destruct (mirror_run junk hp tex cells Hwf Hrgb) as (cs & Hrun & Hl & Hcs).
    exists (with_rgb tex (Block cs)). split; [exact Hrun|].
    destruct (mirror_run junk' hp' (with_rgb tex (Block cs)) cs
                (wf_with_rgb tex cells cs Hwf Hrgb Hl) eq_refl)
      as (cs2 & Hrun2 & Hl2 & Hcs2).
    simpl in Hcs2. rewrite Hrun2. f_equal. f_equal.
    replace cs2 with cells; [apply with_rgb_restore; exact Hrgb|].
    apply (pixelwise_eq (width tex) (height tex)); try lia.
    intros j i Hj Hi. rewrite Hcs2, Hcs by lia.
    f_equal. f_equal. lia.
  - destruct (flip_run junk hp tex cells Hwf Hrgb) as (cs & Hrun & Hl & Hcs).
    exists (with_rgb tex (Block cs)). split; [exact Hrun|].
    destruct (flip_run junk' hp' (with_rgb tex (Block cs)) cs
                (wf_with_rgb tex cells cs Hwf Hrgb Hl) eq_refl)
      as (cs2 & Hrun2 & Hl2 & Hcs2).
    simpl in Hcs2. rewrite Hrun2. f_equal. f_equal.
    replace cs2 with cells; [apply with_rgb_restore; exact Hrgb|].
    apply (pixelwise_eq (width tex) (height tex)); try lia.
    intros j i Hj Hi. rewrite Hcs2, Hcs by lia.
    f_equal. f_equal. lia.
Qed.

Lemma mirror_flip_involutive_witness :
  (exists tex1, _mirror [Some black] corner = ([], Ok tex1) /\
                _mirror [Some white] tex1 = ([], Ok corner)) /\
  (exists tex1, _flip [Some black] corner = ([], Ok tex1) /\
                _flip [Some white] tex1 = ([], Ok corner)).
Proof. apply (mirror_flip_involutive corner [] [] black white). reflexivity. Defined.

(** ** [_circle]: clipping and containment *)

(** A span whose bounds are [int] values runs to its end within a budget
    larger than its number of columns, and keeps what its body keeps. *)
Lemma span_inv (Inv : ptr -> Prop) body hi fuel :
  forall i p,
    0 <= i <= INT_MAX -> hi < INT_MAX -> Z.max 0 (hi - i + 1) < Z.of_nat fuel ->
    Inv p ->
    (forall k q, i <= k <= hi -> Inv q ->
                 exists q', body k q = Ok q' /\ Inv q') ->
    exists p', span fuel i hi body p = Ok p' /\ Inv p'.
Proof.
  unfold INT_MAX.
  induction fuel as [|fuel IH]; intros i p Hi Hhi Hfuel Hp Hbody; [lia|].
  simpl. rewrite u32_small by (unfold UINT_MAX; lia).
  destruct (Z.leb_spec i hi) as [Hle|Hgt].
  - destruct (Hbody i p ltac:(lia) Hp) as (q & Hq & HIq).
    rewrite Hq. cbn [bind].
    rewrite s32_small by (unfold INT_MAX; lia).
    apply IH; try lia; try assumption.
    intros k q' Hk. apply Hbody. lia.
  - exists p. split; [reflexivity|exact Hp].
Qed.


(** A span whose upper bound is [UINT_MAX] never ends: its condition
    [(unsigned) i <= UINT_MAX] holds for every [i]. *)
Lemma span_never_ends body fuel :
  forall i p p', span fuel i UINT_MAX body p <> Ok p'.
Proof.
  induction fuel as [|fuel IH]; intros i p p'; simpl.
  - discriminate.
  - pose proof (u32_range i) as Hi.
    destruct (Z.leb_spec (u32 i) UINT_MAX) as [_|Hgt]; [|lia].
    destruct (body i p) as [q|f]; cbn [bind]; [apply IH|discriminate].
Qed.

(** A span that ends has, after as many turns as it was given, the store it
    ends with. *)
Lemma span_prefix_end body hi fuel :
  forall i p p', span fuel i hi body p = Ok p' ->
                 span_prefix fuel i hi body p = Ok p'.
Proof.
  induction fuel as [|fuel IH]; intros i p p'; simpl.
  - discriminate.
  - destruct (u32 i <=? hi); [|auto].
    destruct (body i p) as [q|f]; cbn [bind]; [apply IH|discriminate].
Qed.

(** C5 fails on the code: the circle of radius 2 around the centre (-2, 0),
    the call [_circle(tex, -2, 0, 2, white)] with [x = 4294967294], on a
    4 by 4 buffer.  In the first iteration ([cx = 1], [cy = 0]) the span of
    row 0 starts at [i = -3] and its upper bound [x + cx] is [UINT_MAX]:
    the condition [i <= x + cx], compared as [unsigned int], holds for
    every [i], so the loop runs on through the columns 0, 1, 2, ... and
    never ends.  After its first five turns the pixel (1,0) is written,
    three columns from the centre, and [_circle] does not return. *)
Theorem circle_endless_span_strays :
  s32 4294967294 = -2 /\
  init_vars 2 = {| cx := 1; cy := 0; dx := 1; dy := 1; err := -3 |} /\
  s32 (u32 (4294967294 - u32 1)) = -3 /\
  u32 (4294967294 + u32 1) = UINT_MAX /\
  (forall fuel p',
     span fuel (-3) UINT_MAX
       (fun i p => do p <- plot (solid 4 4 black) white i (u32 (0 + u32 0)) p;
                   plot (solid 4 4 black) white i (u32 (0 - u32 0)) p)
       (rgb (solid 4 4 black)) <> Ok p') /\
  _circle (solid 4 4 black) 4294967294 0 2 white = Fault Timeout /\
  (exists p,
     span_prefix 5 (-3) UINT_MAX
       (fun i p => do p <- plot (solid 4 4 black) white i (u32 (0 + u32 0)) p;
                   plot (solid 4 4 black) white i (u32 (0 - u32 0)) p)
       (rgb (solid 4 4 black)) = Ok p /\
     pixel (solid 4 4 black) 1 0 = Some black /\
     pixel (with_rgb (solid 4 4 black) p) 1 0 = Some white) /\
  in_disk (-2) 0 2 1 0 = false.
Proof.
  repeat match goal with |- _ /\ _ => split end; try reflexivity.
  - intros fuel p'. apply span_never_ends.
  - eexists. split; [vm_compute; reflexivity|]. split; reflexivity.
Qed.

Section CircleFacts.

Variable tex : texture_t.
Variable cells : list color_t.
Variable c : color_t.
(** The pixels that may be written. *)
Variable allowed : Z -> Z -> bool.

Hypothesis HW : 0 <= width tex <= INT_MAX.
Hypothesis HH : 0 <= height tex <= INT_MAX.
Hypothesis Hlen : Z.of_nat (length cells) = width tex * height tex.
Hypothesis Hsize : width tex * height tex <= SIZE_MAX.

(** A guarded write stays inside the store; it keeps the frame when the
    pixel it writes is an allowed one. *)
Lemma plot_frame i row p :
  frame tex cells allowed p ->
  (0 <= i -> u64 i < width tex -> 0 <= row < height tex ->
   allowed (u64 i) row = true) ->
  exists p', plot tex c i row p = Ok p' /\ frame tex cells allowed p'.
Proof.
  intros (cs & -> & Hl & Hcs) Hok. unfold plot.
  destruct (Z.leb_spec 0 i) as [Hi|Hi]; cbn [andb];
    [|exists (Block cs); split; [reflexivity|exists cs; auto]].
  destruct (Z.ltb_spec (u64 i) (width tex)) as [Hiw|Hiw]; cbn [andb];
    [|exists (Block cs); split; [reflexivity|exists cs; auto]].
  destruct (Z.leb_spec 0 row) as [Hr|Hr]; cbn [andb];
    [|exists (Block cs); split; [reflexivity|exists cs; auto]].
  destruct (Z.ltb_spec row (height tex)) as [Hrh|Hrh]; cbn [andb];
    [|exists (Block cs); split; [reflexivity|exists cs; auto]].
  pose proof (u64_range i) as Hu.
  pose proof (index_bound (width tex) (height tex) row (u64 i)
                ltac:(lia) ltac:(lia)) as Hidx.
  unfold SIZE_MAX in *.
  rewrite (u64_small (row * width tex)) by (unfold SIZE_MAX; nia).
  rewrite (u64_small (row * width tex + u64 i)) by (unfold SIZE_MAX; lia).
  rewrite store_ok by lia.
  eexists. split; [reflexivity|].
  eexists. split; [reflexivity|]. split; [rewrite length_insert; exact Hl|].
  intros j i' Hj Hi' Hout.
  rewrite lookup_insert_pixel by lia.
  destruct (Z.eqb_spec i' row) as [->|Hne]; simpl; [|apply Hcs; assumption].
  destruct (Z.eqb_spec j (u64 i)) as [->|Hne]; simpl; [|apply Hcs; assumption].
  rewrite Hok in Hout by lia. discriminate.
Qed.

(** The body of a span: the two guarded writes of one column. *)
Lemma plot_pair_frame i row1 row2 p :
  frame tex cells allowed p ->
  (0 <= i -> u64 i < width tex -> 0 <= row1 < height tex ->
   allowed (u64 i) row1 = true) ->
  (0 <= i -> u64 i < width tex -> 0 <= row2 < height tex ->
   allowed (u64 i) row2 = true) ->
  exists p',
    (do p <- plot tex c i row1 p; plot tex c i row2 p) = Ok p' /\ frame tex cells allowed p'.
Proof.
  intros Hp H1 H2.
  destruct (plot_frame i row1 p Hp H1) as (p1 & Hr1 & Hp1).
  rewrite Hr1. cbn [bind]. apply plot_frame; assumption.
Qed.

End CircleFacts.


Lemma init_vars_inv radius :
  0 <= radius < 1073741824 -> circle_inv radius (init_vars radius).
Proof.
  intros Hr.
  unfold circle_inv, init_vars. cbn [cx cy dx dy err].
  rewrite shiftl_1, u32_sub_l, u32_sub_r, !s32_u32.
  rewrite !s32_small by (unfold INT_MAX; lia).
  repeat split; lia.
Qed.

(** The updates at the end of the body keep the invariant and bring
    [cx] and [cy] closer. *)
Lemma step_vars_inv radius v :
  0 <= radius < 1073741824 ->
  circle_inv radius v -> cy v <= cx v ->
  circle_inv radius (step_vars radius v) /\
  cx (step_vars radius v) - cy (step_vars radius v) < cx v - cy v.
Proof.
  intros Hr. destruct v as [vx vy vdx vdy verr]. unfold circle_inv, step_vars.
  cbn [cx cy dx dy err].
  intros (Hcy & Hcx & Hcyr & Hdy & Hdx & Herr & Hlow & Hneg) Hguard.
  specialize (Hneg Hguard).
  destruct (Z.leb_spec verr 0); [|lia]. cbn [cx cy dx dy err].
  rewrite (s32_small (vy + 1)), (s32_small (vdy + 2)), (s32_small (verr + vdy))
    by (unfold INT_MAX; lia).
  destruct (Z.ltb_spec 0 (verr + vdy)); cbn [cx cy dx dy err].
  - rewrite (s32_small (vdx + 2)), (s32_small (vx - 1)) by (unfold INT_MAX; lia).
    rewrite shiftl_1, u32_sub_l, u32_sub_r, u32_add_l, u32_add_r, s32_u32.
    rewrite s32_small by (unfold INT_MAX; lia).
    repeat split; lia.
  - repeat split; lia.
Qed.

(** * Further properties of the operations *)

(** ** [_mirror] and [_flip], pixel by pixel *)

(** X1: [_mirror] (scratch allocation granted) returns a well-formed buffer
    of the same dimensions whose pixel in column [j] of row [i] is the
    pixel in column [width - 1 - j] of row [i] before the call. *)
Theorem mirror_reverses_rows (tex : texture_t) (hp : heap) (junk : color_t) :
  wf_texture tex = true ->
  exists tex',
    _mirror (Some junk :: hp) tex = (hp, Ok tex') /\
    width tex' = width tex /\ height tex' = height tex /\
    wf_texture tex' = true /\
    forall j i, 0 <= j < width tex -> 0 <= i < height tex ->
      pixel tex' j i = pixel tex (width tex - 1 - j) i.
Proof.
  intros Hwf.
  destruct (wf_texture_inv tex Hwf) as (cells & Hrgb & _).
  destruct (mirror_run junk hp tex cells Hwf Hrgb) as (cs & Hrun & Hl & Hcs).
  exists (with_rgb tex (Block cs)).
  split; [exact Hrun|]. split; [reflexivity|]. split; [reflexivity|].
  split; [exact (wf_with_rgb tex cells cs Hwf Hrgb Hl)|].
  intros j i Hj Hi. unfold pixel. cbn [with_rgb rgb width]. rewrite Hrgb.
  apply Hcs; assumption.
Qed.

Lemma mirror_reverses_rows_witness :
  exists tex',
    _mirror [Some black] corner = ([], Ok tex') /\
    width tex' = width corner /\ height tex' = height corner /\
    wf_texture tex' = true /\
    forall j i, 0 <= j < width corner -> 0 <= i < height corner ->
      pixel tex' j i = pixel corner (width corner - 1 - j) i.
Proof. apply (mirror_reverses_rows corner [] black). reflexivity. Defined.

(** X2: [_flip] (scratch allocation granted) returns a well-formed buffer
    of the same dimensions whose pixel in column [j] of row [i] is the
    pixel in column [j] of row [height - 1 - i] before the call. *)
Theorem flip_reverses_columns (tex : texture_t) (hp : heap) (junk : color_t) :
  wf_texture tex = true ->
  exists tex',
    _flip (Some junk :: hp) tex = (hp, Ok tex') /\
    width tex' = width tex /\ height tex' = height tex /\
    wf_texture tex' = true /\
    forall j i, 0 <= j < width tex -> 0 <= i < height tex ->
      pixel tex' j i = pixel tex j (height tex - 1 - i).
Proof.
  intros Hwf.
  destruct (wf_texture_inv tex Hwf) as (cells & Hrgb & _).
  destruct (flip_run junk hp tex cells Hwf Hrgb) as (cs & Hrun & Hl & Hcs).
  exists (with_rgb tex (Block cs)).
  split; [exact Hrun|]. split; [reflexivity|]. split; [reflexivity|].
  split; [exact (wf_with_rgb tex cells cs Hwf Hrgb Hl)|].
  intros j i Hj Hi. unfold pixel. cbn [with_rgb rgb width]. rewrite Hrgb.
  apply Hcs; assumption.
Qed.

Lemma flip_reverses_columns_witness :
  exists tex',
    _flip [Some black] corner = ([], Ok tex') /\
    width tex' = width corner /\ height tex' = height corner /\
    wf_texture tex' = true /\
    forall j i, 0 <= j < width corner -> 0 <= i < height corner ->
      pixel tex' j i = pixel corner j (height corner - 1 - i).
Proof. apply (flip_reverses_columns corner [] black). reflexivity. Defined.

(** X3: [_mirror] and [_flip] commute, and either composition is the
    reflection through the centre of the buffer: the pixel in column [j]
    of row [i] becomes the pixel in column [width - 1 - j] of row
    [height - 1 - i]. *)
Theorem mirror_flip_commute (tex : texture_t) (hp : heap) (junk : color_t) :
  wf_texture tex = true ->
  exists tm tf tex',
    _mirror (Some junk :: hp) tex = (hp, Ok tm) /\
    _flip (Some junk :: hp) tm = (hp, Ok tex') /\
    _flip (Some junk :: hp) tex = (hp, Ok tf) /\
    _mirror (Some junk :: hp) tf = (hp, Ok tex') /\
    forall j i, 0 <= j < width tex -> 0 <= i < height tex ->
      pixel tex' j i = pixel tex (width tex - 1 - j) (height tex - 1 - i).
Proof.
  intros Hwf.
  destruct (wf_texture_inv tex Hwf) as (cells & Hrgb & HW & HH & Hlen & Hsz).
  destruct (mirror_run junk hp tex cells Hwf Hrgb) as (cm & Hm & Hlm & Hcm).
  destruct (flip_run junk hp tex cells Hwf Hrgb) as (cf & Hf & Hlf & Hcf).
  destruct (flip_run junk hp (with_rgb tex (Block cm)) cm
              (wf_with_rgb tex cells cm Hwf Hrgb Hlm) eq_refl)
    as (cmf & Hmf & Hlmf & Hcmf).
  destruct (mirror_run junk hp (with_rgb tex (Block cf)) cf
              (wf_with_rgb tex cells cf Hwf Hrgb Hlf) eq_refl)
    as (cfm & Hfm & Hlfm & Hcfm).
  cbn [with_rgb width height] in Hcmf, Hcfm.
  assert (cfm = cmf) as ->.
  { apply (pixelwise_eq (width tex) (height tex)); try lia.
    intros j i Hj Hi.
    rewrite Hcfm, Hcmf by lia. rewrite Hcf, Hcm by lia. reflexivity. }
  exists (with_rgb tex (Block cm)), (with_rgb tex (Block cf)),
    (with_rgb tex (Block cmf)).
  split; [exact Hm|]. split; [exact Hmf|]. split; [exact Hf|].
  split; [exact Hfm|].
  intros j i Hj Hi. unfold pixel. cbn [with_rgb rgb width]. rewrite Hrgb.
  rewrite Hcmf, Hcm by lia. reflexivity.
Qed.

Lemma mirror_flip_commute_witness :
  exists tm tf tex',
    _mirror [Some black] corner = ([], Ok tm) /\
    _flip [Some black] tm = ([], Ok tex') /\
    _flip [Some black] corner = ([], Ok tf) /\
    _mirror [Some black] tf = ([], Ok tex') /\
    forall j i, 0 <= j < width corner -> 0 <= i < height corner ->
      pixel tex' j i = pixel corner (width corner - 1 - j) (height corner - 1 - i).
Proof. apply (mirror_flip_commute corner [] black). reflexivity. Defined.

(** A loop whose first iteration faults ends in that fault. *)
Lemma for_lt_first_fault {St : Type} lo hi (body : Z -> St -> result St) s f :
  lo < hi -> body lo s = Fault f -> for_lt lo hi body s = Fault f.
Proof.
  intros Hlt Hb. unfold for_lt.
  destruct (Z.to_nat (hi - lo)) as [|n] eqn:Hn; [lia|].
  simpl. rewrite Hb. reflexivity.
Qed.

(** X4: when the scratch allocation is refused, [_mirror] and [_flip] on a
    buffer that has pixels do not return: the first pixel is written
    through the null scratch pointer.  The allocation is not checked. *)
Theorem mirror_flip_refused (tex : texture_t) (hp : heap) :
  wf_texture tex = true -> 0 < width tex -> 0 < height tex ->
  _mirror (None :: hp) tex = (hp, Fault NullPointer) /\
  _flip (None :: hp) tex = (hp, Fault NullPointer).
Proof.
  intros Hwf HW0 HH0.
  destruct (wf_texture_inv tex Hwf) as (cells & Hrgb & HW & HH & Hlen & Hsz).
  unfold INT_MAX, SIZE_MAX, sizeof_color_t in *.
  assert (0 < Z.of_nat (length cells)) as Hpos by nia.
  split.
  - unfold _mirror. cbn [malloc]. f_equal.
    erewrite for_lt_first_fault; [reflexivity|lia|].
    apply for_lt_first_fault; [lia|].
    rewrite Hrgb.
    replace (u64 (u64 (0 * width tex) + u64 (u64 (width tex - 1) - 0)))
      with (width tex - 1).
    2:{ rewrite (u64_small (width tex - 1)) by (unfold SIZE_MAX; lia).
        replace (width tex - 1 - 0) with (width tex - 1) by lia.
        rewrite (u64_small (width tex - 1)) by (unfold SIZE_MAX; lia).
        rewrite (u64_small (0 * width tex)) by (unfold SIZE_MAX; lia).
        rewrite u64_small by (unfold SIZE_MAX; lia). lia. }
    destruct (lookup_lt_is_Some_2 cells (Z.to_nat (width tex - 1)) ltac:(nia))
      as [c Hc].
    rewrite (load_ok cells (width tex - 1) c ltac:(lia) Hc). reflexivity.
  - unfold _flip. cbn [malloc]. f_equal.
    erewrite for_lt_first_fault; [reflexivity|lia|].
    apply for_lt_first_fault; [lia|].
    rewrite Hrgb.
    replace (u64 (u64 (u64 (u64 (height tex - 1) - 0) * width tex) + 0))
      with ((height tex - 1) * width tex).
    2:{ rewrite (u64_small (height tex - 1)) by (unfold SIZE_MAX; lia).
        replace (height tex - 1 - 0) with (height tex - 1) by lia.
        rewrite (u64_small (height tex - 1)) by (unfold SIZE_MAX; lia).
        rewrite (u64_small ((height tex - 1) * width tex)) by (unfold SIZE_MAX; nia).
        rewrite u64_small by (unfold SIZE_MAX; nia). lia. }
    destruct (lookup_lt_is_Some_2 cells (Z.to_nat ((height tex - 1) * width tex))
                ltac:(nia)) as [c Hc].
    rewrite (load_ok cells ((height tex - 1) * width tex) c ltac:(nia) Hc).
    reflexivity.
Qed.

Lemma mirror_flip_refused_witness :
  _mirror [None] corner = ([], Fault NullPointer) /\
  _flip [None] corner = ([], Fault NullPointer).
Proof.
  apply (mirror_flip_refused corner []); [reflexivity|simpl; lia|simpl; lia].
Defined.

(** ** [texture] without memory *)

(** X5: when the allocation is refused, [texture] reports nothing: if the
    [int] product [w * h] is positive, the fill loop writes through the
    null pointer; otherwise the loop is not entered and a buffer with a
    null store is returned. *)
Theorem texture_refused (hp : heap) (w h : Z) (c : color_t) :
  texture (None :: hp) w h c
  = (hp, if 0 <? s32 (w * h) then Fault NullPointer
         else Ok {| width := u64 w; height := u64 h; rgb := NULL |}).
Proof.
  unfold texture. cbn [malloc]. f_equal.
  destruct (Z.ltb_spec 0 (s32 (w * h))) as [Hpos|Hneg].
  - rewrite (for_lt_first_fault 0 (s32 (w * h)) _ NULL NullPointer);
      [reflexivity|exact Hpos|reflexivity].
  - rewrite for_lt_empty by lia. reflexivity.
Qed.

(** ** The pattern of [_noise] *)

Lemma draws_add {rng : Type} (rand : rng -> Z * rng) n m s :
  draws rand (n + m) s = draws rand n (draws rand m s).
Proof. unfold draws. apply Nat.iter_add. Qed.

Lemma draw_add {rng : Type} (rand : rng -> Z * rng) n m s :
  draw rand (n + m) s = draw rand n (draws rand m s).
Proof. unfold draw. rewrite draws_add. reflexivity. Qed.

Section NoisePattern.

Variable rng : Type.
Variable srand : Z -> rng.
Variable rand : rng -> Z * rng.
Variable RAND_MAX : Z.

(** The body of the loop draws three numbers and uses them, in this order,
    for the r, g and b channel of its pixel. *)
Lemma noise_body_exact intensity i g0 cells c :
  0 <= i -> cells !! Z.to_nat i = Some c ->
  noise_body rng rand RAND_MAX intensity i (g0, Block cells)
  = Ok (draws rand 3 g0,
        Block (<[Z.to_nat i :=
                 noisy RAND_MAX intensity (draw rand 0 g0) (draw rand 1 g0)
                   (draw rand 2 g0) c]> cells)).
Proof.
  intros Hi Hc. unfold noise_body.
  change (draws rand 3 g0) with (snd (rand (snd (rand (snd (rand g0)))))).
  change (draw rand 0 g0) with (fst (rand g0)).
  change (draw rand 1 g0) with (fst (rand (snd (rand g0)))).
  change (draw rand 2 g0) with (fst (rand (snd (rand (snd (rand g0)))))).
  pose proof (lookup_lt_Some _ _ _ Hc) as Hlt.
  destruct (rand g0) as [n1 g1]. cbn [fst snd].
  destruct (rand g1) as [n2 g2]. cbn [fst snd].
  destruct (rand g2) as [n3 g3]. cbn [fst snd].
  rewrite (modify_ok _ _ _ _ Hi Hc). simpl bind.
  repeat (erewrite modify_ok;
          [ simpl bind; rewrite list_insert_insert_eq
          | exact Hi
          | apply list_lookup_insert_eq; exact Hlt ]).
  reflexivity.
Qed.

(** X6: [_noise] draws exactly three numbers per pixel from the generator
    seeded with 1, in row-major order: pixel number [i] gets the draws
    [3i], [3i+1], [3i+2] for its r, g and b channel, whatever the other
    pixels hold, and the generator is left in the state after
    [3 * width * height] draws. *)
Theorem noise_pattern (g0 : rng) (tex : texture_t) (intensity : float) :
  wf_texture tex = true ->
  exists tex' cells cells',
    rgb tex = Block cells /\ rgb tex' = Block cells' /\
    _noise rng srand rand RAND_MAX g0 tex intensity
    = Ok (draws rand (3 * length cells) (srand 1), tex') /\
    forall (i : nat) c, cells !! i = Some c ->
      cells' !! i
      = Some (noisy RAND_MAX intensity
                (draw rand (3 * i) (srand 1)) (draw rand (3 * i + 1) (srand 1))
                (draw rand (3 * i + 2) (srand 1)) c).
Proof.
  intros Hwf.
  destruct (wf_texture_inv tex Hwf) as (cells & Hrgb & HW & HH & Hlen & Hsz).
  unfold INT_MAX, SIZE_MAX, sizeof_color_t in *.
  assert (u64 (width tex * height tex) = Z.of_nat (length cells)) as Hn.
  { rewrite u64_small by (unfold SIZE_MAX; lia). lia. }
  unfold _noise. rewrite Hn, Hrgb.
  destruct (for_lt_inv
    (fun k (st : rng * ptr) =>
       fst st = draws rand (3 * Z.to_nat k) (srand 1) /\
       exists cs, snd st = Block cs /\ length cs = length cells /\
         (forall (j : nat) c, (j < Z.to_nat k)%nat -> cells !! j = Some c ->
            cs !! j
            = Some (noisy RAND_MAX intensity
                      (draw rand (3 * j) (srand 1)) (draw rand (3 * j + 1) (srand 1))
                      (draw rand (3 * j + 2) (srand 1)) c)) /\
         (forall j, (Z.to_nat k <= j)%nat -> cs !! j = cells !! j))
    (noise_body rng rand RAND_MAX intensity) 0 (Z.of_nat (length cells))
    (srand 1, Block cells))
    as ([g' p] & Hrun & Hg & cs & Hp & Hl & Hdone & _).
  - lia.
  - split; [reflexivity|]. exists cells. split; [reflexivity|].
    split; [reflexivity|]. split; [intros j c Hj; lia|reflexivity].
  - intros k [g p] Hk (Hg & cs & Hp & Hl & Hdone & Hrest).
    cbn [fst snd] in Hg, Hp. subst g p.
    destruct (lookup_lt_is_Some_2 cells (Z.to_nat k) ltac:(lia)) as [c Hc].
    assert (cs !! Z.to_nat k = Some c) as Hcs by (rewrite Hrest; [exact Hc|lia]).
    rewrite (noise_body_exact intensity k _ cs c ltac:(lia) Hcs).
    eexists. split; [reflexivity|]. cbn [fst snd]. split.
    + rewrite <- draws_add. f_equal. lia.
    + eexists. split; [reflexivity|].
      split; [rewrite length_insert; exact Hl|]. split.
      * intros j c0 Hj Hc0. destruct (decide (j = Z.to_nat k)) as [->|Hne].
        -- rewrite list_lookup_insert_eq by lia.
           assert (c0 = c) as -> by congruence.
           replace (3 * Z.to_nat k + 1)%nat with (1 + 3 * Z.to_nat k)%nat by lia.
           replace (3 * Z.to_nat k + 2)%nat with (2 + 3 * Z.to_nat k)%nat by lia.
           rewrite !draw_add. reflexivity.
        -- rewrite list_lookup_insert_ne by congruence.
           apply Hdone; [lia|exact Hc0].
      * intros j Hj. rewrite list_lookup_insert_ne by lia. apply Hrest. lia.
  - cbn [fst snd] in Hg, Hp. subst g' p.
    exists (with_rgb tex (Block cs)), cells, cs.
    split; [reflexivity|]. split; [reflexivity|]. split.
    + rewrite Hrun. cbn [bind fst snd]. rewrite Nat2Z.id. reflexivity.
    + intros i c Hc. apply Hdone; [|exact Hc].
      pose proof (lookup_lt_Some _ _ _ Hc). lia.
Qed.

End NoisePattern.

Lemma noise_pattern_witness :
  exists tex' cells cells',
    rgb (solid 2 2 white) = Block cells /\ rgb tex' = Block cells' /\
    _noise SampleRand.rng SampleRand.srand SampleRand.rand SampleRand.RAND_MAX
      0 (solid 2 2 white) f_half
    = Ok (draws SampleRand.rand (3 * length cells) (SampleRand.srand 1), tex') /\
    forall (i : nat) c, cells !! i = Some c ->
      cells' !! i
      = Some (noisy SampleRand.RAND_MAX f_half
                (draw SampleRand.rand (3 * i) (SampleRand.srand 1))
                (draw SampleRand.rand (3 * i + 1) (SampleRand.srand 1))
                (draw SampleRand.rand (3 * i + 2) (SampleRand.srand 1)) c).
Proof.
  apply (noise_pattern SampleRand.rng SampleRand.srand SampleRand.rand
           SampleRand.RAND_MAX 0 (solid 2 2 white) f_half).
  reflexivity.
Defined.

(** ** Rectangles *)

(** [_rect] inside the bounds, on the cells of the store. *)
Lemma rect_run tex cells x y rw rh c :
  wf_texture tex = true -> rgb tex = Block cells ->
  0 <= x -> 0 <= y -> 0 <= rw -> 0 <= rh ->
  x + rw <= width tex -> y + rh <= height tex ->
  exists cs,
    _rect tex x y rw rh c = Ok (with_rgb tex (Block cs)) /\
    length cs = length cells /\
    forall j i, 0 <= j < width tex -> 0 <= i < height tex ->
      cs !! Z.to_nat (i * width tex + j)
      = if in_rect x y rw rh j i then Some c
        else cells !! Z.to_nat (i * width tex + j).
Proof.
  intros Hwf Hrgb Hx Hy Hrw Hrh Hfw Hfh.
  destruct (wf_texture_inv tex Hwf) as (cells' & Hrgb' & HW & HH & Hlen & Hsz).
  rewrite Hrgb in Hrgb'. injection Hrgb' as <-.
  unfold INT_MAX, sizeof_color_t in *.
  destruct (rect_rows tex cells x y rw rh c) as (p' & Hrun & cs & -> & Hl & Hcs);
    try assumption; try lia.
  exists cs. split; [|split; [exact Hl|]].
  - unfold _rect.
    rewrite !u32_small by (unfold UINT_MAX; lia).
    destruct (Z.ltb_spec (width tex) (x + rw)); [lia|].
    destruct (Z.ltb_spec (height tex) (y + rh)); [lia|].
    cbn [orb]. rewrite Hrgb, Hrun. reflexivity.
  - intros j i Hj Hi. rewrite Hcs by lia. unfold rect_done, in_rect. zbool.
Qed.

(** X7: a rectangle without columns or without rows changes nothing, on
    any buffer and wherever it is placed. *)
Theorem rect_empty (tex : texture_t) (x y n : Z) (c : color_t) :
  0 <= x <= UINT_MAX -> 0 <= y <= UINT_MAX -> 0 <= n <= UINT_MAX ->
  _rect tex x y 0 n c = Ok tex /\ _rect tex x y n 0 c = Ok tex.
Proof.
  intros Hx Hy Hn. split; unfold _rect.
  - destruct (_ || _); [reflexivity|].
    replace (x + 0) with x by lia. rewrite (u32_small x) by lia.
    unfold for_lt at 1.
    rewrite for_count_skip by (intros k t; apply for_lt_empty; lia).
    cbn [bind]. rewrite with_rgb_id. reflexivity.
  - destruct (_ || _); [reflexivity|].
    replace (y + 0) with y by lia. rewrite (u32_small y) by lia.
    rewrite for_lt_empty by lia.
    cbn [bind]. rewrite with_rgb_id. reflexivity.
Qed.

Lemma rect_empty_witness :
  _rect corner 1 1 0 1 white = Ok corner /\ _rect corner 1 1 1 0 white = Ok corner.
Proof. apply (rect_empty corner 1 1 1 white); unfold UINT_MAX; lia. Defined.

(** X8: filling the same rectangle twice is filling it once. *)
Theorem rect_idempotent (tex : texture_t) (x y rw rh : Z) (c : color_t) :
  wf_texture tex = true ->
  0 <= x -> 0 <= y -> 0 <= rw -> 0 <= rh ->
  x + rw <= width tex -> y + rh <= height tex ->
  exists tex',
    _rect tex x y rw rh c = Ok tex' /\ _rect tex' x y rw rh c = Ok tex'.
Proof.
  intros Hwf Hx Hy Hrw Hrh Hfw Hfh.
  destruct (wf_texture_inv tex Hwf) as (cells & Hrgb & HW & HH & Hlen & Hsz).
  destruct (rect_run tex cells x y rw rh c) as (cs & Hrun & Hl & Hcs);
    try assumption.
  destruct (rect_run (with_rgb tex (Block cs)) cs x y rw rh c)
    as (cs2 & Hrun2 & Hl2 & Hcs2); try assumption; try reflexivity.
  { exact (wf_with_rgb tex cells cs Hwf Hrgb Hl). }
  cbn [with_rgb width height] in Hcs2.
  exists (with_rgb tex (Block cs)). split; [exact Hrun|].
  rewrite Hrun2. f_equal. unfold with_rgb. cbn [width height]. f_equal. f_equal.
  apply (pixelwise_eq (width tex) (height tex)); try lia.
  intros j i Hj Hi. rewrite Hcs2, Hcs by lia.
  destruct (in_rect x y rw rh j i); reflexivity.
Qed.

Lemma rect_idempotent_witness :
  exists tex',
    _rect (solid 4 4 black) 1 1 2 2 white = Ok tex' /\
    _rect tex' 1 1 2 2 white = Ok tex'.
Proof.
  apply (rect_idempotent (solid 4 4 black) 1 1 2 2 white);
    first [reflexivity | simpl; lia].
Defined.

(** X9: the rectangle that covers the whole buffer turns it into the
    buffer that [texture] builds for the same dimensions and colour. *)
Theorem rect_full (tex : texture_t) (c : color_t) :
  wf_texture tex = true ->
  _rect tex 0 0 (width tex) (height tex) c
  = Ok (solid (width tex) (height tex) c).
Proof.
  intros Hwf.
  destruct (wf_texture_inv tex Hwf) as (cells & Hrgb & HW & HH & Hlen & Hsz).
  destruct (rect_run tex cells 0 0 (width tex) (height tex) c)
    as (cs & Hrun & Hl & Hcs); try assumption; try lia.
  rewrite Hrun. unfold with_rgb, solid. f_equal. f_equal. f_equal.
  apply (pixelwise_eq (width tex) (height tex)); try lia.
  { rewrite length_replicate. nia. }
  intros j i Hj Hi. rewrite Hcs by lia.
  pose proof (index_bound (width tex) (height tex) i j Hi Hj).
  rewrite lookup_replicate_2 by lia.
  unfold in_rect. zbool.
Qed.

Lemma rect_full_witness :
  _rect corner 0 0 (width corner) (height corner) white
  = Ok (solid (width corner) (height corner) white).
Proof. apply (rect_full corner white). reflexivity. Defined.

(** X10: of two rectangles filled one after the other the later one wins:
    a pixel has the second colour inside the second rectangle, the first
    colour inside the first rectangle only, and its old value elsewhere. *)
Theorem rect_then_rect (tex : texture_t) (x1 y1 rw1 rh1 x2 y2 rw2 rh2 : Z)
    (c1 c2 : color_t) :
  wf_texture tex = true ->
  0 <= x1 -> 0 <= y1 -> 0 <= rw1 -> 0 <= rh1 ->
  x1 + rw1 <= width tex -> y1 + rh1 <= height tex ->
  0 <= x2 -> 0 <= y2 -> 0 <= rw2 -> 0 <= rh2 ->
  x2 + rw2 <= width tex -> y2 + rh2 <= height tex ->
  exists t1 t2,
    _rect tex x1 y1 rw1 rh1 c1 = Ok t1 /\ _rect t1 x2 y2 rw2 rh2 c2 = Ok t2 /\
    forall j i, 0 <= j < width tex -> 0 <= i < height tex ->
      pixel t2 j i
      = if in_rect x2 y2 rw2 rh2 j i then Some c2
        else if in_rect x1 y1 rw1 rh1 j i then Some c1
        else pixel tex j i.
Proof.
  intros Hwf Hx1 Hy1 Hrw1 Hrh1 Hfw1 Hfh1 Hx2 Hy2 Hrw2 Hrh2 Hfw2 Hfh2.
  destruct (wf_texture_inv tex Hwf) as (cells & Hrgb & _).
  destruct (rect_run tex cells x1 y1 rw1 rh1 c1) as (cs & Hrun & Hl & Hcs);
    try assumption.
  destruct (rect_run (with_rgb tex (Block cs)) cs x2 y2 rw2 rh2 c2)
    as (cs2 & Hrun2 & Hl2 & Hcs2); try assumption; try reflexivity.
  { exact (wf_with_rgb tex cells cs Hwf Hrgb Hl). }
  cbn [with_rgb width height] in Hcs2.
  eexists _, _. split; [exact Hrun|]. split; [exact Hrun2|].
  intros j i Hj Hi. unfold pixel. cbn [with_rgb rgb width]. rewrite Hrgb.
  rewrite Hcs2, Hcs by lia. reflexivity.
Qed.

Lemma rect_then_rect_witness :
  exists t1 t2,
    _rect (solid 4 4 black) 0 0 2 2 white = Ok t1 /\
    _rect t1 1 1 2 2 black = Ok t2 /\
    forall j i, 0 <= j < 4 -> 0 <= i < 4 ->
      pixel t2 j i
      = if in_rect 1 1 2 2 j i then Some black
        else if in_rect 0 0 2 2 j i then Some white
        else pixel (solid 4 4 black) j i.
Proof.
  apply (rect_then_rect (solid 4 4 black) 0 0 2 2 1 1 2 2 white black);
    first [reflexivity | simpl; lia].
Defined.

(** X11: two rectangles that do not overlap, or that have the same colour,
    can be filled in either order: the resulting buffers are equal. *)
Theorem rect_commute (tex : texture_t) (x1 y1 rw1 rh1 x2 y2 rw2 rh2 : Z)
    (c1 c2 : color_t) :
  wf_texture tex = true ->
  0 <= x1 -> 0 <= y1 -> 0 <= rw1 -> 0 <= rh1 ->
  x1 + rw1 <= width tex -> y1 + rh1 <= height tex ->
  0 <= x2 -> 0 <= y2 -> 0 <= rw2 -> 0 <= rh2 ->
  x2 + rw2 <= width tex -> y2 + rh2 <= height tex ->
  x1 + rw1 <= x2 \/ x2 + rw2 <= x1 \/ y1 + rh1 <= y2 \/ y2 + rh2 <= y1 \/ c1 = c2 ->
  exists t1 t2 tex',
    _rect tex x1 y1 rw1 rh1 c1 = Ok t1 /\ _rect t1 x2 y2 rw2 rh2 c2 = Ok tex' /\
    _rect tex x2 y2 rw2 rh2 c2 = Ok t2 /\ _rect t2 x1 y1 rw1 rh1 c1 = Ok tex'.
Proof.
  intros Hwf Hx1 Hy1 Hrw1 Hrh1 Hfw1 Hfh1 Hx2 Hy2 Hrw2 Hrh2 Hfw2 Hfh2 Hsep.
  destruct (wf_texture_inv tex Hwf) as (cells & Hrgb & HW & HH & Hlen & Hsz).
  destruct (rect_run tex cells x1 y1 rw1 rh1 c1) as (ca & Ha & Hla & Hca);
    try assumption.
  destruct (rect_run tex cells x2 y2 rw2 rh2 c2) as (cb & Hb & Hlb & Hcb);
    try assumption.
  destruct (rect_run (with_rgb tex (Block ca)) ca x2 y2 rw2 rh2 c2)
    as (cab & Hab & Hlab & Hcab); try assumption; try reflexivity.
  { exact (wf_with_rgb tex cells ca Hwf Hrgb Hla). }
  destruct (rect_run (with_rgb tex (Block cb)) cb x1 y1 rw1 rh1 c1)
    as (cba & Hba & Hlba & Hcba); try assumption; try reflexivity.
  { exact (wf_with_rgb tex cells cb Hwf Hrgb Hlb). }
  cbn [with_rgb width height] in Hcab, Hcba, Hab, Hba.
  assert (cba = cab) as ->.
  { apply (pixelwise_eq (width tex) (height tex)); try lia.
    intros j i Hj Hi. rewrite Hcba, Hcab by lia. rewrite Hcb, Hca by lia.
    destruct (in_rect x1 y1 rw1 rh1 j i) eqn:H1;
      destruct (in_rect x2 y2 rw2 rh2 j i) eqn:H2; try reflexivity.
    destruct Hsep as [Hs|[Hs|[Hs|[Hs| ->]]]]; try reflexivity;
      exfalso; unfold in_rect in H1, H2;
      repeat (apply andb_prop in H1 as [H1 ?]);
      repeat (apply andb_prop in H2 as [H2 ?]); lia. }
  exists (with_rgb tex (Block ca)), (with_rgb tex (Block cb)),
    (with_rgb tex (Block cab)).
  repeat split; assumption.
Qed.

Lemma rect_commute_witness :
  exists t1 t2 tex',
    _rect (solid 4 4 black) 0 0 2 2 white = Ok t1 /\
    _rect t1 2 2 2 2 white = Ok tex' /\
    _rect (solid 4 4 black) 2 2 2 2 white = Ok t2 /\
    _rect t2 0 0 2 2 white = Ok tex'.
Proof.
  apply (rect_commute (solid 4 4 black) 0 0 2 2 2 2 2 2 white white);
    first [reflexivity | simpl; lia].
Defined.

(** X12: the mirror image of a filled rectangle is the rectangle filled at
    the mirrored place: [_rect] followed by [_mirror] gives the same buffer
    as [_mirror] followed by [_rect] at column [width - x - rw]. *)
Theorem mirror_of_rect (tex : texture_t) (hp : heap) (junk : color_t)
    (x y rw rh : Z) (c : color_t) :
  wf_texture tex = true ->
  0 <= x -> 0 <= y -> 0 <= rw -> 0 <= rh ->
  x + rw <= width tex -> y + rh <= height tex ->
  exists tr tm tex',
    _rect tex x y rw rh c = Ok tr /\
    _mirror (Some junk :: hp) tr = (hp, Ok tex') /\
    _mirror (Some junk :: hp) tex = (hp, Ok tm) /\
    _rect tm (width tex - x - rw) y rw rh c = Ok tex'.
Proof.
  intros Hwf Hx Hy Hrw Hrh Hfw Hfh.
  destruct (wf_texture_inv tex Hwf) as (cells & Hrgb & HW & HH & Hlen & Hsz).
  destruct (rect_run tex cells x y rw rh c) as (cr & Hr & Hlr & Hcr);
    try assumption.
  destruct (mirror_run junk hp tex cells Hwf Hrgb) as (cm & Hm & Hlm & Hcm).
  destruct (mirror_run junk hp (with_rgb tex (Block cr)) cr
              (wf_with_rgb tex cells cr Hwf Hrgb Hlr) eq_refl)
    as (crm & Hrm & Hlrm & Hcrm).
  destruct (rect_run (with_rgb tex (Block cm)) cm (width tex - x - rw) y rw rh c)
    as (cmr & Hmr & Hlmr & Hcmr); try assumption; try reflexivity;
    cbn [with_rgb width height]; try lia.
  { exact (wf_with_rgb tex cells cm Hwf Hrgb Hlm). }
  cbn [with_rgb width height] in Hcrm, Hcmr, Hrm, Hmr.
  assert (cmr = crm) as ->.
  { apply (pixelwise_eq (width tex) (height tex)); try lia.
    intros j i Hj Hi. rewrite Hcmr, Hcrm by lia. rewrite Hcm, Hcr by lia.
    unfold in_rect. zbool. }
  exists (with_rgb tex (Block cr)), (with_rgb tex (Block cm)),
    (with_rgb tex (Block crm)).
  repeat split; assumption.
Qed.

Lemma mirror_of_rect_witness :
  exists tr tm tex',
    _rect (solid 4 4 black) 0 1 1 2 white = Ok tr /\
    _mirror [Some black] tr = ([], Ok tex') /\
    _mirror [Some black] (solid 4 4 black) = ([], Ok tm) /\
    _rect tm (width (solid 4 4 black) - 0 - 1) 1 1 2 white = Ok tex'.
Proof.
  apply (mirror_of_rect (solid 4 4 black) [] black 0 1 1 2 white);
    first [reflexivity | simpl; lia].
Defined.

(** ** [_smear] and [_grunge] *)

(** X13: on a buffer that has pixels, [_smear] is the 1 by 1 rectangle at
    the origin. *)
Theorem smear_is_rect (tex : texture_t) (c : color_t) :
  wf_texture tex = true -> 0 < width tex -> 0 < height tex ->
  exists tex', _smear tex c = Ok tex' /\ _rect tex 0 0 1 1 c = Ok tex'.
Proof.
  intros Hwf HW0 HH0.
  destruct (wf_texture_inv tex Hwf) as (cells & Hrgb & HW & HH & Hlen & Hsz).
  destruct (rect_run tex cells 0 0 1 1 c) as (cs & Hrun & Hl & Hcs);
    try assumption; try lia.
  exists (with_rgb tex (Block cs)). split; [|exact Hrun].
  unfold _smear. rewrite Hrgb, store_ok by nia. cbn [bind].
  f_equal. f_equal. f_equal.
  apply (pixelwise_eq (width tex) (height tex)); try lia.
  { rewrite length_insert. lia. }
  intros j i Hj Hi. rewrite Hcs by lia.
  replace (Z.to_nat 0) with (Z.to_nat (0 * width tex + 0)) by (f_equal; lia).
  rewrite lookup_insert_pixel by nia.
  unfold in_rect. zbool.
Qed.

Lemma smear_is_rect_witness :
  exists tex', _smear corner black = Ok tex' /\ _rect corner 0 0 1 1 black = Ok tex'.
Proof. apply (smear_is_rect corner black); [reflexivity|simpl; lia|simpl; lia]. Defined.

(** X14: on a buffer that has pixels, [_grunge] adds [intensity] to the
    blue channel of the pixel at the origin, without clamping, and leaves
    its other channels and every other pixel as they were. *)
Theorem grunge_origin_blue (tex : texture_t) (intensity : float) :
  wf_texture tex = true -> 0 < width tex -> 0 < height tex ->
  exists c0 tex',
    pixel tex 0 0 = Some c0 /\
    _grunge tex intensity = Ok tex' /\
    width tex' = width tex /\ height tex' = height tex /\
    pixel tex' 0 0
    = Some {| r := r c0; g := g c0; b := fadd (b c0) intensity; a := a c0 |} /\
    forall j i, 0 <= j < width tex -> 0 <= i < height tex ->
      j <> 0 \/ i <> 0 -> pixel tex' j i = pixel tex j i.
Proof.
  intros Hwf HW0 HH0.
  destruct (wf_texture_inv tex Hwf) as (cells & Hrgb & HW & HH & Hlen & Hsz).
  destruct (lookup_lt_is_Some_2 cells (Z.to_nat 0) ltac:(nia)) as [c0 Hc0].
  exists c0, (with_rgb tex (Block (<[Z.to_nat 0 :=
                 set_b c0 (fadd (b c0) intensity)]> cells))).
  split; [unfold pixel; rewrite Hrgb; exact Hc0|].
  split.
  { unfold _grunge. rewrite Hrgb.
    rewrite (modify_ok cells 0 c0 _ ltac:(lia) Hc0). reflexivity. }
  split; [reflexivity|]. split; [reflexivity|].
  unfold pixel. cbn [with_rgb rgb width]. rewrite Hrgb. split.
  - rewrite list_lookup_insert_eq by nia. reflexivity.
  - intros j i Hj Hi Hne.
    replace (Z.to_nat 0) with (Z.to_nat (0 * width tex + 0)) by (f_equal; lia).
    rewrite lookup_insert_pixel by nia. zbool.
Qed.

Lemma grunge_origin_blue_witness :
  exists c0 tex',
    pixel corner 0 0 = Some c0 /\
    _grunge corner f_one = Ok tex' /\
    width tex' = width corner /\ height tex' = height corner /\
    pixel tex' 0 0
    = Some {| r := r c0; g := g c0; b := fadd (b c0) f_one; a := a c0 |} /\
    forall j i, 0 <= j < width corner -> 0 <= i < height corner ->
      j <> 0 \/ i <> 0 -> pixel tex' j i = pixel corner j i.
Proof. apply (grunge_origin_blue corner f_one); [reflexivity|simpl; lia|simpl; lia]. Defined.

(** X15: on a well-formed buffer without pixels (width or height 0),
    [_smear] and [_grunge] access the store out of its bounds. *)
Theorem stubs_need_a_pixel (tex : texture_t) (c : color_t) (intensity : float) :
  wf_texture tex = true -> width tex = 0 \/ height tex = 0 ->
  _smear tex c = Fault OutOfBounds /\ _grunge tex intensity = Fault OutOfBounds.
Proof.
  intros Hwf Hzero.
  destruct (wf_texture_inv tex Hwf) as (cells & Hrgb & HW & HH & Hlen & Hsz).
  assert (cells = []) as ->.
  { destruct cells; [reflexivity|]. simpl in Hlen. nia. }
  unfold _smear, _grunge. rewrite Hrgb. split; reflexivity.
Qed.

Lemma stubs_need_a_pixel_witness :
  _smear (solid 0 3 black) white = Fault OutOfBounds /\
  _grunge (solid 0 3 black) f_one = Fault OutOfBounds.
Proof.
  apply (stubs_need_a_pixel (solid 0 3 black) white f_one);
    [reflexivity|left; reflexivity].
Defined.

(** ** What every operation keeps *)

Lemma bind_Ok {A B : Type} (m : result A) (k : A -> result B) y :
  bind m k = Ok y -> exists x, m = Ok x /\ k x = Ok y.
Proof. destruct m as [x|f]; simpl; [eauto|discriminate]. Qed.

Ltac invert_bind :=
  repeat match goal with
         | H : bind _ _ = Ok _ |- _ =>
             let x := fresh "x" in
             let Hx := fresh "Hx" in
             apply bind_Ok in H as (x & Hx & H)
         end.

Lemma store_sized n p i c p' : sized n p -> store p i c = Ok p' -> sized n p'.
Proof.
  intros (cs & -> & Hl). unfold store.
  destruct (_ && _); [|discriminate].
  intros [= <-]. eexists. split; [reflexivity|]. rewrite length_insert. exact Hl.
Qed.

Lemma modify_sized n p i f p' : sized n p -> modify p i f = Ok p' -> sized n p'.
Proof.
  unfold modify. intros Hp H. invert_bind. eapply store_sized; eassumption.
Qed.

(** What the body of a counted loop keeps, the loop keeps. *)
Lemma for_count_keeps {St : Type} (P : St -> Prop) body n :
  (forall k t t', P t -> body k t = Ok t' -> P t') ->
  forall i s s', P s -> for_count n i body s = Ok s' -> P s'.
Proof.
  intros Hbody. induction n as [|n IH]; intros i s s' Hs H; simpl in H.
  - injection H as <-. exact Hs.
  - invert_bind. eapply IH; [|exact H]. eapply Hbody; eassumption.
Qed.

Lemma span_keeps (P : ptr -> Prop) body hi fuel :
  (forall k q q', P q -> body k q = Ok q' -> P q') ->
  forall i p p', P p -> span fuel i hi body p = Ok p' -> P p'.
Proof.
  intros Hbody. induction fuel as [|fuel IH]; intros i p p' Hp H; simpl in H.
  - discriminate.
  - destruct (u32 i <=? hi).
    + invert_bind. eapply IH; [|exact H]. eapply Hbody; eassumption.
    + injection H as <-. exact Hp.
Qed.

Lemma circle_loop_keeps (P : ptr -> Prop) tex c x y radius n :
  (forall i row q q', P q -> plot tex c i row q = Ok q' -> P q') ->
  forall fuel v p p',
    P p -> circle_loop fuel n tex x y radius c v p = Ok p' -> P p'.
Proof.
  intros Hplot.
  assert (forall row1 row2 k q q', P q ->
            (do q1 <- plot tex c k row1 q; plot tex c k row2 q1) = Ok q' -> P q')
    as Hpair.
  { intros row1 row2 k q q' Hq H. invert_bind.
    eapply Hplot; [|exact H]. eapply Hplot; eassumption. }
  induction fuel as [|fuel IH]; intros v p p' Hp H; cbn [circle_loop] in H.
  - discriminate.
  - destruct (cy v <=? cx v); [|injection H as <-; exact Hp].
    invert_bind. eapply IH; [|exact H].
    eapply span_keeps; [apply Hpair| |eassumption].
    eapply span_keeps; [apply Hpair| |eassumption]. exact Hp.
Qed.

Lemma plot_sized tex c n i row q q' :
  sized n q -> plot tex c i row q = Ok q' -> sized n q'.
Proof.
  unfold plot. destruct (_ && _).
  - apply store_sized.
  - intros Hq [= <-]. exact Hq.
Qed.

Lemma same_shape_with_rgb tex p :
  (forall n, sized n (rgb tex) -> sized n p) -> same_shape tex (with_rgb tex p).
Proof. intros H. split; [reflexivity|]. split; [reflexivity|exact H]. Qed.

Lemma same_shape_refl tex : same_shape tex tex.
Proof. split; [reflexivity|]. split; [reflexivity|auto]. Qed.

Lemma same_shape_trans t1 t2 t3 :
  same_shape t1 t2 -> same_shape t2 t3 -> same_shape t1 t3.
Proof.
  intros (Hw1 & Hh1 & Hs1) (Hw2 & Hh2 & Hs2).
  split; [congruence|]. split; [congruence|]. auto.
Qed.

Lemma same_shape_wf tex tex' :
  wf_texture tex = true -> same_shape tex tex' -> wf_texture tex' = true.
Proof.
  intros Hwf (Hw & Hh & Hs).
  unfold wf_texture in *. destruct (rgb tex) as [|cells]; [discriminate|].
  destruct (Hs (length cells)) as (cs & -> & Hl); [eexists; eauto|].
  rewrite Hw, Hh, Hl. exact Hwf.
Qed.

Lemma rect_same_shape tex x y rw rh c tex' :
  _rect tex x y rw rh c = Ok tex' -> same_shape tex tex'.
Proof.
  unfold _rect. destruct (_ || _).
  - intros [= <-]. apply same_shape_refl.
  - intros H. invert_bind. injection H as <-.
    apply same_shape_with_rgb. intros n Hn.
    unfold for_lt in Hx.
    eapply (for_count_keeps (sized n)); [|exact Hn|exact Hx].
    intros k t t' Ht Hk. unfold for_lt in Hk.
    eapply (for_count_keeps (sized n)); [|exact Ht|exact Hk].
    intros j u u' Hu. apply store_sized. exact Hu.
Qed.

Lemma circle_same_shape tex x y radius c tex' :
  _circle tex x y radius c = Ok tex' -> same_shape tex tex'.
Proof.
  unfold _circle. intros H. invert_bind. injection H as <-.
  apply same_shape_with_rgb. intros n Hn.
  eapply (circle_loop_keeps (sized n)); [|exact Hn|exact Hx].
  intros i row q q'. apply plot_sized.
Qed.

Lemma smear_same_shape tex c tex' : _smear tex c = Ok tex' -> same_shape tex tex'.
Proof.
  unfold _smear. intros H. invert_bind. injection H as <-.
  apply same_shape_with_rgb. intros n Hn. eapply store_sized; eassumption.
Qed.

Lemma grunge_same_shape tex k tex' : _grunge tex k = Ok tex' -> same_shape tex tex'.
Proof.
  unfold _grunge. intros H. invert_bind. injection H as <-.
  apply same_shape_with_rgb. intros n Hn. eapply modify_sized; eassumption.
Qed.

(** The loop that copies the scratch store back keeps the size of the
    store it writes. *)
Lemma copy_back_sized n scratch hi p p' :
  sized n p ->
  for_lt 0 hi (fun i p => do c <- load scratch i; store p i c) p = Ok p' ->
  sized n p'.
Proof.
  intros Hp H. unfold for_lt in H.
  eapply (for_count_keeps (sized n)); [|exact Hp|exact H].
  intros k t t' Ht Hk. cbv beta in Hk. invert_bind.
  eapply store_sized; eassumption.
Qed.

Lemma mirror_same_shape hp tex hp' tex' :
  _mirror hp tex = (hp', Ok tex') -> same_shape tex tex'.
Proof.
  unfold _mirror. destruct (malloc _ _) as [m hp1]. intros [= _ H].
  invert_bind. injection H as <-.
  apply same_shape_with_rgb. intros n Hn. eapply copy_back_sized; eassumption.
Qed.

Lemma flip_same_shape hp tex hp' tex' :
  _flip hp tex = (hp', Ok tex') -> same_shape tex tex'.
Proof.
  unfold _flip. destruct (malloc _ _) as [m hp1]. intros [= _ H].
  invert_bind. injection H as <-.
  apply same_shape_with_rgb. intros n Hn. eapply copy_back_sized; eassumption.
Qed.

Section BuilderFacts.

Variable rng : Type.
Variable srand : Z -> rng.
Variable rand : rng -> Z * rng.
Variable RAND_MAX : Z.

Lemma noise_body_sized n intensity i (st st' : rng * ptr) :
  sized n (snd st) ->
  noise_body rng rand RAND_MAX intensity i st = Ok st' -> sized n (snd st').
Proof.
  destruct st as [g0 p]. unfold noise_body. cbn [snd].
  destruct (rand g0) as [n1 g1]. destruct (rand g1) as [n2 g2].
  destruct (rand g2) as [n3 g3].
  intros Hp H. invert_bind. injection H as <-. cbn [snd].
  repeat match goal with
         | H : modify _ _ _ = Ok ?q |- sized n ?q =>
             eapply modify_sized; [|exact H]
         end.
  exact Hp.
Qed.

Lemma noise_same_shape g tex intensity g' tex' :
  _noise rng srand rand RAND_MAX g tex intensity = Ok (g', tex') ->
  same_shape tex tex'.
Proof.
  unfold _noise. intros H. invert_bind. injection H as _ <-.
  apply same_shape_with_rgb. intros n Hn. unfold for_lt in Hx.
  eapply (for_count_keeps (fun st : rng * ptr => sized n (snd st)));
    [|exact (Hn : sized n (snd (srand 1, rgb tex)))|exact Hx].
  intros k t t'. apply noise_body_sized.
Qed.

Lemma run_op_same_shape g hp o tex g' hp' tex' :
  run_op rng srand rand RAND_MAX g hp o tex = Ok (g', hp', tex') ->
  same_shape tex tex'.
Proof.
  destruct o; cbn [run_op]; intros H.
  - invert_bind. injection H as _ _ <-. destruct x as [g1 t1].
    eapply noise_same_shape. exact Hx.
  - invert_bind. injection H as _ _ <-. eapply grunge_same_shape. exact Hx.
  - invert_bind. injection H as _ _ <-. eapply smear_same_shape. exact Hx.
  - invert_bind. injection H as _ _ <-. eapply rect_same_shape. exact Hx.
  - invert_bind. injection H as _ _ <-. eapply circle_same_shape. exact Hx.
  - destruct (_flip hp tex) as [hp1 res] eqn:Hf.
    invert_bind. injection H as _ _ <-. subst res.
    eapply flip_same_shape. exact Hf.
  - destruct (_mirror hp tex) as [hp1 res] eqn:Hm.
    invert_bind. injection H as _ _ <-. subst res.
    eapply mirror_same_shape. exact Hm.
Qed.

Lemma run_ops_same_shape ops :
  forall g hp tex g' hp' tex',
    run_ops rng srand rand RAND_MAX g hp ops tex = Ok (g', hp', tex') ->
    same_shape tex tex'.
Proof.
  induction ops as [|o ops IH]; intros g hp tex g' hp' tex' H; cbn [run_ops] in H.
  - injection H as _ _ <-. apply same_shape_refl.
  - invert_bind. destruct x as [[g1 hp1] t1]. cbn [fst snd] in H.
    eapply same_shape_trans.
    + eapply run_op_same_shape. exact Hx.
    + eapply IH. exact H.
Qed.

(** X16: whatever calls [tex_build] chains, the buffer it returns has
    the width and the height of the initial buffer and a store of the same
    size: a well-formed buffer stays well formed. *)
Theorem tex_build_keeps_shape (g : rng) (hp : heap) (tex : texture_t)
    (ops : list op) (g' : rng) (hp' : heap) (tex' : texture_t) :
  wf_texture tex = true ->
  tex_build rng srand rand RAND_MAX g hp tex ops = Ok (g', hp', tex') ->
  width tex' = width tex /\ height tex' = height tex /\
  store_size (rgb tex') = store_size (rgb tex) /\
  wf_texture tex' = true.
Proof.
  intros Hwf H. unfold tex_build in H. invert_bind.
  destruct x as [[g1 hp1] t1]. injection H as _ _ <-. unfold _create.
  pose proof (run_ops_same_shape ops g hp tex g1 hp1 t1 Hx) as Hshape.
  pose proof (same_shape_wf tex t1 Hwf Hshape) as Hwf'.
  destruct Hshape as (Hw & Hh & Hs).
  split; [exact Hw|]. split; [exact Hh|]. split; [|exact Hwf'].
  destruct (wf_texture_inv tex Hwf) as (cells & Hrgb & _).
  destruct (Hs (length cells)) as (cs & Hrgb' & Hl);
    [rewrite Hrgb; eexists; eauto|].
  rewrite Hrgb, Hrgb'. simpl. lia.
Qed.

End BuilderFacts.

Lemma tex_build_keeps_shape_witness :
  exists g' hp' tex',
    tex_build SampleRand.rng SampleRand.srand SampleRand.rand SampleRand.RAND_MAX
      0 [Some black; Some white] (solid 4 4 black) recipe = Ok (g', hp', tex') /\
    width tex' = 4 /\ height tex' = 4 /\
    store_size (rgb tex') = store_size (rgb (solid 4 4 black)) /\
    wf_texture tex' = true.
Proof.
  destruct (tex_build SampleRand.rng SampleRand.srand SampleRand.rand
              SampleRand.RAND_MAX 0 [Some black; Some white] (solid 4 4 black)
              recipe) as [[[g' hp'] tex']|f] eqn:Hrun.
  - exists g', hp', tex'. split; [reflexivity|].
    apply (tex_build_keeps_shape SampleRand.rng SampleRand.srand SampleRand.rand
             SampleRand.RAND_MAX 0 [Some black; Some white] (solid 4 4 black)
             recipe g' hp' tex'); [reflexivity|exact Hrun].
  - vm_compute in Hrun. discriminate Hrun.
Defined.

Section BuilderChain.

Variable rng : Type.
Variable srand : Z -> rng.
Variable rand : rng -> Z * rng.
Variable RAND_MAX : Z.

Lemma run_ops_app ops1 ops2 :
  forall g hp tex,
    run_ops rng srand rand RAND_MAX g hp (ops1 ++ ops2) tex
    = (do st <- run_ops rng srand rand RAND_MAX g hp ops1 tex;
       run_ops rng srand rand RAND_MAX (fst (fst st)) (snd (fst st)) ops2 (snd st)).
Proof.
  induction ops1 as [|o ops1 IH]; intros g hp tex.
  - reflexivity.
  - cbn [app run_ops].
    destruct (run_op rng srand rand RAND_MAX g hp o tex) as [st|f];
      [|reflexivity].
    cbn [bind]. apply IH.
Qed.

(** X17: a build can be split anywhere: building with the calls [ops1]
    and then building from the result with the calls [ops2] (the generator
    and the allocator going on where the first build left them) is
    building with all the calls at once; a fault of the first build is the
    fault of the whole. *)
Theorem tex_build_chain (g : rng) (hp : heap) (tex : texture_t)
    (ops1 ops2 : list op) :
  tex_build rng srand rand RAND_MAX g hp tex (ops1 ++ ops2)
  = (do st <- tex_build rng srand rand RAND_MAX g hp tex ops1;
     tex_build rng srand rand RAND_MAX (fst (fst st)) (snd (fst st)) (snd st) ops2).
Proof.
  unfold tex_build, _create. rewrite run_ops_app.
  destruct (run_ops rng srand rand RAND_MAX g hp ops1 tex) as [[[g1 hp1] t1]|f];
    reflexivity.
Qed.

End BuilderChain.

(** ** [_circle]: what it writes *)

Lemma plot_painted tex cells c i row q q' :
  painted cells c q -> plot tex c i row q = Ok q' -> painted cells c q'.
Proof.
  intros (cs & -> & Hl & Hcs). unfold plot.
  destruct (_ && _); [|intros [= <-]; exists cs; auto].
  unfold store. destruct (_ && _) eqn:Hin; [|discriminate].
  intros [= <-]. apply andb_prop in Hin as [H0 H1].
  apply Z.leb_le in H0. apply Z.ltb_lt in H1.
  eexists. split; [reflexivity|]. split; [rewrite length_insert; exact Hl|].
  intros k.
  destruct (decide (k = Z.to_nat (u64 (u64 (row * width tex) + u64 i)))) as [->|Hne].
  - right. apply list_lookup_insert_eq. lia.
  - rewrite list_lookup_insert_ne by congruence. apply Hcs.
Qed.

(** X18: [_circle] overwrites, it does not blend: whatever the centre and
    the radius, every pixel of the buffer it returns has the value it had
    before the call or is exactly the colour [c]; width, height and the
    size of the store are unchanged. *)
Theorem circle_overwrites (tex : texture_t) (x y radius : Z) (c : color_t)
    (tex' : texture_t) :
  wf_texture tex = true ->
  _circle tex x y radius c = Ok tex' ->
  width tex' = width tex /\ height tex' = height tex /\
  store_size (rgb tex') = store_size (rgb tex) /\
  forall j i, pixel tex' j i = pixel tex j i \/ pixel tex' j i = Some c.
Proof.
  intros Hwf H.
  destruct (wf_texture_inv tex Hwf) as (cells & Hrgb & _).
  unfold _circle in H. invert_bind. injection H as <-.
  rewrite Hrgb in Hx.
  destruct (circle_loop_keeps (painted cells c) tex c x y radius
              (circle_fuel radius) (plot_painted tex cells c)
              (circle_fuel radius) (init_vars radius) (Block cells) x0)
    as (cs & -> & Hl & Hcs); [exists cells; auto|exact Hx|].
  split; [reflexivity|]. split; [reflexivity|].
  split; [rewrite Hrgb; simpl; lia|].
  intros j i. unfold pixel. cbn [with_rgb rgb width]. rewrite Hrgb. apply Hcs.
Qed.

Lemma circle_overwrites_witness :
  exists tex',
    _circle (solid 8 8 black) 1 4 3 white = Ok tex' /\
    width tex' = 8 /\ height tex' = 8 /\
    store_size (rgb tex') = store_size (rgb (solid 8 8 black)) /\
    forall j i, pixel tex' j i = pixel (solid 8 8 black) j i \/
                pixel tex' j i = Some white.
Proof.
  destruct (_circle (solid 8 8 black) 1 4 3 white) as [tex'|f] eqn:Hrun.
  - exists tex'. split; [reflexivity|].
    apply (circle_overwrites (solid 8 8 black) 1 4 3 white tex');
      [reflexivity|exact Hrun].
  - vm_compute in Hrun. discriminate Hrun.
Defined.

(** The first update of the body always applies: [cy] grows by one in
    every iteration. *)
Lemma step_vars_cy radius v :
  0 <= radius < 1073741824 ->
  circle_inv radius v -> cy v <= cx v ->
  cy (step_vars radius v) = cy v + 1.
Proof.
  intros Hr. destruct v as [vx vy vdx vdy verr]. unfold circle_inv, step_vars.
  cbn [cx cy dx dy err].
  intros (Hcy & Hcx & Hcyr & Hdy & Hdx & Herr & Hlow & Hneg) Hguard.
  specialize (Hneg Hguard).
  destruct (Z.leb_spec verr 0); [|lia]. cbn [cx cy dx dy err].
  rewrite (s32_small (vy + 1)) by (unfold INT_MAX; lia).
  destruct (0 <? _); reflexivity.
Qed.

Section CircleRegion.

Variable tex : texture_t.
Variable cells : list color_t.
Variable c : color_t.
Variables x y radius : Z.
(** The pixels that may be written, and what else holds of the local
    variables in every iteration. *)
Variable allowed : Z -> Z -> bool.
Variable extra : circle_vars -> Prop.

Hypothesis HW : 0 <= width tex <= INT_MAX.
Hypothesis HH : 0 <= height tex <= INT_MAX.
Hypothesis Hlen : Z.of_nat (length cells) = width tex * height tex.
Hypothesis Hsize : width tex * height tex <= SIZE_MAX.
Hypothesis Hx : 0 <= x.
Hypothesis Hy : 0 <= y.
Hypothesis Hr : 0 <= radius < 1073741824.
Hypothesis Hxr : x + radius <= INT_MAX.
Hypothesis Hyr : y + radius <= UINT_MAX.

(** One span that is entered ([c1 <= x]) and writes allowed pixels only. *)
Lemma span_region c1 c2 p :
  0 <= c1 <= radius - 1 -> 0 <= c2 <= radius - 1 ->
  (forall k row, c1 <= x -> x - c1 <= k <= x + c1 ->
     row = y + c2 \/ (c2 <= y /\ row = y - c2) ->
     0 <= k < width tex -> 0 <= row < height tex -> allowed k row = true) ->
  frame tex cells allowed p ->
  exists p',
    span (circle_fuel radius) (s32 (u32 (x - u32 c1))) (u32 (x + u32 c1))
      (fun i p => do p <- plot tex c i (u32 (y + u32 c2)) p;
                  plot tex c i (u32 (y - u32 c2)) p) p = Ok p' /\
    frame tex cells allowed p'.
Proof.
  unfold INT_MAX, UINT_MAX in *. intros Hc1 Hc2 Hok Hp.
  rewrite (u32_small c1), (u32_small c2) by (unfold UINT_MAX; lia).
  rewrite (u32_small (x + c1)), (u32_small (y + c2)) by (unfold UINT_MAX; lia).
  destruct (Z.lt_ge_cases x c1) as [Hleft|Hfit].
  - rewrite u32_sub_wrapped by (unfold UINT_MAX; lia).
    unfold circle_fuel. cbn [span].
    rewrite u32_s32, u32_small by (unfold UINT_MAX; lia).
    destruct (Z.leb_spec (x - c1 + 4294967296) (x + c1)); [lia|].
    exists p. split; [reflexivity|exact Hp].
  - rewrite (u32_small (x - c1)) by (unfold UINT_MAX; lia).
    rewrite s32_small by (unfold INT_MAX; lia).
    apply span_inv; try (unfold INT_MAX, circle_fuel; lia); [exact Hp|].
    intros k q Hk Hq.
    apply plot_pair_frame; try assumption.
    + intros Hk0 Hkw Hrow. rewrite u64_small in * by (unfold SIZE_MAX; lia).
      apply Hok; try lia.
    + intros Hk0 Hkw Hrow. rewrite u64_small in * by (unfold SIZE_MAX; lia).
      destruct (Z.lt_ge_cases y c2) as [Habove|Hbelow].
      * rewrite u32_sub_wrapped in Hrow by (unfold UINT_MAX; lia). lia.
      * rewrite u32_small in * by (unfold UINT_MAX; lia).
        apply Hok; try lia.
Qed.

Hypothesis Hextra : forall v,
  circle_inv radius v -> extra v -> cy v <= cx v -> extra (step_vars radius v).
Hypothesis Hallowed : forall v c1 c2 k row,
  circle_inv radius v -> extra v -> cy v <= cx v ->
  (c1 = cx v /\ c2 = cy v) \/ (c1 = cy v /\ c2 = cx v) ->
  c1 <= x -> x - c1 <= k <= x + c1 ->
  row = y + c2 \/ (c2 <= y /\ row = y - c2) ->
  0 <= k < width tex -> 0 <= row < height tex -> allowed k row = true.

Lemma circle_loop_region fuel :
  forall v p,
    circle_inv radius v -> extra v -> frame tex cells allowed p ->
    Z.max 0 (cx v - cy v + 1) < Z.of_nat fuel ->
    exists p',
      circle_loop fuel (circle_fuel radius) tex x y radius c v p = Ok p' /\
      frame tex cells allowed p'.
Proof.
  induction fuel as [|fuel IH]; intros v p Hinv Hex Hp Hfuel; [lia|].
  cbn [circle_loop].
  destruct (Z.leb_spec (cy v) (cx v)) as [Hguard|Hexit];
    [|exists p; split; [reflexivity|exact Hp]].
  destruct (step_vars_inv radius v Hr Hinv Hguard) as [Hinv' Hdec].
  pose proof (Hextra v Hinv Hex Hguard) as Hex'.
  pose proof Hinv as (Hcy & Hcx & Hcyr & Hdy & Hdx & Herr & Hlow & Hneg).
  destruct (span_region (cx v) (cy v) p) as (p1 & -> & Hp1);
    try assumption; try lia.
  { intros k row. apply (Hallowed v); auto. }
  cbn [bind].
  destruct (span_region (cy v) (cx v) p1) as (p2 & -> & Hp2);
    try assumption; try lia.
  { intros k row. apply (Hallowed v); auto. }
  cbn [bind]. apply IH; [exact Hinv'|exact Hex'|exact Hp2|lia].
Qed.

(** [_circle] returns, and only allowed pixels differ from [cells]. *)
Lemma circle_region :
  rgb tex = Block cells -> extra (init_vars radius) ->
  exists cs,
    _circle tex x y radius c = Ok (with_rgb tex (Block cs)) /\
    length cs = length cells /\
    forall j i, 0 <= j < width tex -> 0 <= i < height tex ->
      allowed j i = false ->
      cs !! Z.to_nat (i * width tex + j) = cells !! Z.to_nat (i * width tex + j).
Proof.
  intros Hrgb Hex0.
  destruct (circle_loop_region (circle_fuel radius) (init_vars radius) (Block cells))
    as (p' & Hrun & cs & -> & Hl & Hcs).
  - apply init_vars_inv. exact Hr.
  - exact Hex0.
  - exists cells. repeat split.
  - unfold init_vars, circle_fuel. cbn [cx cy].
    rewrite s32_u32, s32_small by (unfold INT_MAX; lia). lia.
  - exists cs. unfold _circle. rewrite Hrgb, Hrun. auto.
Qed.

End CircleRegion.

(** X19: a circle whose leftmost column [x - (radius - 1)] is at or beyond
    the right edge of the buffer, or whose topmost row [y - (radius - 1)]
    is at or beyond its bottom edge, changes nothing. *)
Theorem circle_off_canvas (tex : texture_t) (x y radius : Z) (c : color_t) :
  wf_texture tex = true ->
  0 <= x -> 0 <= y -> 0 <= radius < 1073741824 ->
  x + radius <= INT_MAX -> y + radius <= UINT_MAX ->
  width tex + radius <= x + 1 \/ height tex + radius <= y + 1 ->
  _circle tex x y radius c = Ok tex.
Proof.
  intros Hwf Hx Hy Hr Hxr Hyr Hoff.
  destruct (wf_texture_inv tex Hwf) as (cells & Hrgb & HW & HH & Hlen & Hsz).
  assert (width tex * height tex <= SIZE_MAX) as Hsize
    by (unfold sizeof_color_t, SIZE_MAX in *; lia).
  destruct (circle_region tex cells c x y radius (fun _ _ => false)
              (fun _ => True)) as (cs & Hrun & Hl & Hcs); try assumption; auto.
  { intros v c1 c2 k row Hinv _ Hguard Hpair Hc1 Hk Hrow Hkw Hrh.
    exfalso.
    destruct Hinv as (Hcy & Hcx & Hcyr & _).
    assert (0 <= c1 <= radius - 1 /\ 0 <= c2 <= radius - 1) as [Hb1 Hb2]
      by (destruct Hpair as [[-> ->]|[-> ->]]; lia).
    destruct Hoff as [Hoff|Hoff]; destruct Hrow as [->|[? ->]]; lia. }
  rewrite Hrun. f_equal.
  replace cs with cells; [rewrite <- Hrgb; apply with_rgb_id|].
  apply (pixelwise_eq (width tex) (height tex)); try lia.
  intros j i Hj Hi. symmetry. apply Hcs; auto.
Qed.

Lemma circle_off_canvas_witness :
  _circle (solid 4 4 black) 6 1 3 white = Ok (solid 4 4 black).
Proof.
  apply (circle_off_canvas (solid 4 4 black) 6 1 3 white);
    first [reflexivity | unfold INT_MAX, UINT_MAX; simpl; lia].
Defined.

(** X20: when the centre is less than [radius - 1] columns from the left
    edge ([x < radius - 1]), [_circle] leaves the whole row [y] of the
    centre as it was: the only span of that row starts at the negative
    column [x - (radius - 1)], which the unsigned comparison of the loop
    condition rejects. *)
Theorem circle_centre_row_skipped (tex : texture_t) (x y radius : Z)
    (c : color_t) :
  wf_texture tex = true ->
  0 <= x -> 0 <= y -> 0 <= radius < 1073741824 ->
  x + radius <= INT_MAX -> y + radius <= UINT_MAX ->
  x < radius - 1 ->
  exists tex',
    _circle tex x y radius c = Ok tex' /\
    forall j, 0 <= j < width tex -> pixel tex' j y = pixel tex j y.
Proof.
  intros Hwf Hx Hy Hr Hxr Hyr Hleft.
  destruct (wf_texture_inv tex Hwf) as (cells & Hrgb & HW & HH & Hlen & Hsz).
  assert (width tex * height tex <= SIZE_MAX) as Hsize
    by (unfold sizeof_color_t, SIZE_MAX in *; lia).
  destruct (circle_region tex cells c x y radius
              (fun _ i => negb (i =? y))
              (fun v => cy v = 0 -> cx v = radius - 1))
    as (cs & Hrun & Hl & Hcs); try assumption.
  - intros v Hinv _ Hguard Hzero.
    rewrite (step_vars_cy radius v Hr Hinv Hguard) in Hzero.
    destruct Hinv as (Hcy & _). lia.
  - intros v c1 c2 k row Hinv Hex Hguard Hpair Hc1 Hk Hrow Hkw Hrh.
    destruct Hinv as (Hcy & Hcx & Hcyr & _).
    apply negb_true_iff. apply Z.eqb_neq.
    destruct (Z.eq_dec (cy v) 0) as [Hz|Hnz].
    + specialize (Hex Hz).
      destruct Hpair as [[-> ->]|[-> ->]]; [lia|].
      destruct Hrow as [->|[? ->]]; lia.
    + destruct Hpair as [[-> ->]|[-> ->]]; destruct Hrow as [->|[? ->]]; lia.
  - unfold init_vars. cbn [cx cy]. intros _.
    rewrite s32_u32, s32_small by (unfold INT_MAX; lia). reflexivity.
  - exists (with_rgb tex (Block cs)). split; [exact Hrun|].
    intros j Hj. unfold pixel. cbn [with_rgb rgb width]. rewrite Hrgb.
    destruct (Z.lt_ge_cases y (height tex)) as [Hin|Hout].
    + apply Hcs; [lia|lia|]. rewrite Z.eqb_refl. reflexivity.
    + rewrite !lookup_ge_None_2; [reflexivity| |]; nia.
Qed.

Lemma circle_centre_row_skipped_witness :
  exists tex',
    _circle (solid 8 8 black) 1 4 3 white = Ok tex' /\
    forall j, 0 <= j < width (solid 8 8 black) ->
      pixel tex' j 4 = pixel (solid 8 8 black) j 4.
Proof.
  apply (circle_centre_row_skipped (solid 8 8 black) 1 4 3 white);
    first [reflexivity | unfold INT_MAX, UINT_MAX; simpl; lia].
Defined.

(** ** [_circle]: the row of the centre *)

(** The invariant rule of a span whose bounds are [int] values, for an
    invariant that follows the column. *)
Lemma span_inv_at (Inv : Z -> ptr -> Prop) body hi fuel :
  forall i p,
    0 <= i <= hi + 1 -> hi < INT_MAX -> hi - i + 1 < Z.of_nat fuel ->
    Inv i p ->
    (forall k q, i <= k <= hi -> Inv k q ->
                 exists q', body k q = Ok q' /\ Inv (k + 1) q') ->
    exists p', span fuel i hi body p = Ok p' /\ Inv (hi + 1) p'.
Proof.
  unfold INT_MAX.
  induction fuel as [|fuel IH]; intros i p Hi Hhi Hfuel Hp Hbody; [lia|].
  simpl. rewrite u32_small by (unfold UINT_MAX; lia).
  destruct (Z.leb_spec i hi) as [Hle|Hgt].
  - destruct (Hbody i p ltac:(lia) Hp) as (q & Hq & HIq).
    rewrite Hq. cbn [bind].
    rewrite s32_small by (unfold INT_MAX; lia).
    apply IH; try lia; try assumption.
    intros k q' Hk. apply Hbody. lia.
  - exists p. split; [reflexivity|].
    replace (hi + 1) with i by lia. exact Hp.
Qed.

Section CircleRow.

Variable tex : texture_t.
Variable cells : list color_t.
Variable c : color_t.
Variables x y : Z.

Hypothesis HW : 0 <= width tex <= INT_MAX.
Hypothesis HH : 0 <= height tex <= INT_MAX.
Hypothesis Hlen : Z.of_nat (length cells) = width tex * height tex.
Hypothesis Hsize : width tex * height tex <= SIZE_MAX.
Hypothesis Hx : 0 <= x.
Hypothesis Hy : 0 <= y < height tex.

(** The columns [lo .. hi - 1] of row [y], where they are in the buffer,
    hold the colour [c]. *)
Let row_done (lo hi : Z) (p : ptr) : Prop :=
  exists cs, p = Block cs /\ length cs = length cells /\
    forall j, lo <= j < hi -> 0 <= j < width tex ->
      cs !! Z.to_nat (y * width tex + j) = Some c.

(** A guarded write keeps the pixels that hold [c]. *)
Lemma plot_row_done lo hi i row q q' :
  row_done lo hi q -> plot tex c i row q = Ok q' -> row_done lo hi q'.
Proof.
  intros (cs & -> & Hl & Hcs). unfold plot.
  destruct (_ && _); [|intros [= <-]; exists cs; auto].
  unfold store. destruct (_ && _) eqn:Hin; [|discriminate].
  intros [= <-]. apply andb_prop in Hin as [H0 H1].
  apply Z.leb_le in H0. apply Z.ltb_lt in H1.
  eexists. split; [reflexivity|]. split; [rewrite length_insert; exact Hl|].
  intros j Hj Hjw.
  destruct (decide (Z.to_nat (y * width tex + j)
                    = Z.to_nat (u64 (u64 (row * width tex) + u64 i)))) as [->|Hne].
  - apply list_lookup_insert_eq. lia.
  - rewrite list_lookup_insert_ne by congruence. apply Hcs; assumption.
Qed.

(** A guarded write of column [k] of row [y] makes that pixel [c]. *)
Lemma plot_row_next lo k q :
  0 <= k <= INT_MAX -> row_done lo k q ->
  exists q', plot tex c k y q = Ok q' /\ row_done lo (k + 1) q'.
Proof.
  unfold INT_MAX, SIZE_MAX in *. intros Hk (cs & -> & Hl & Hcs). unfold plot.
  rewrite (u64_small k) by (unfold SIZE_MAX; lia).
  destruct (Z.leb_spec 0 k); [|lia].
  destruct (Z.leb_spec 0 y); [|lia].
  destruct (Z.ltb_spec y (height tex)); [|lia].
  destruct (Z.ltb_spec k (width tex)) as [Hin|Hout]; cbn [andb].
  - pose proof (index_bound (width tex) (height tex) y k ltac:(lia) ltac:(lia)).
    rewrite (u64_small (y * width tex)) by (unfold SIZE_MAX; nia).
    rewrite u64_small by (unfold SIZE_MAX; lia).
    rewrite store_ok by lia.
    eexists. split; [reflexivity|].
    eexists. split; [reflexivity|]. split; [rewrite length_insert; exact Hl|].
    intros j Hj Hjw. rewrite lookup_insert_pixel by lia.
    rewrite Z.eqb_refl. cbn [andb].
    destruct (Z.eqb_spec j k); [reflexivity|]. apply Hcs; lia.
  - eexists. split; [reflexivity|].
    exists cs. split; [reflexivity|]. split; [exact Hl|].
    intros j Hj Hjw. apply Hcs; lia.
Qed.

(** The span of the first iteration paints the row of the centre. *)
Lemma span_centre_row n c1 p :
  0 <= c1 -> c1 <= x -> x + c1 < INT_MAX ->
  2 * c1 + 1 < Z.of_nat n ->
  sized (length cells) p ->
  exists p',
    span n (s32 (u32 (x - u32 c1))) (u32 (x + u32 c1))
      (fun i p => do p <- plot tex c i (u32 (y + u32 0)) p;
                  plot tex c i (u32 (y - u32 0)) p) p = Ok p' /\
    row_done (x - c1) (x + c1 + 1) p'.
Proof.
  unfold INT_MAX in *. intros Hc1 Hfit Hmax Hn (cs & -> & Hl).
  rewrite (u32_small c1) by (unfold UINT_MAX; lia).
  change (u32 0) with 0.
  replace (y + 0) with y by lia. replace (y - 0) with y by lia.
  rewrite (u32_small y) by (unfold UINT_MAX; lia).
  rewrite (u32_small (x + c1)), (u32_small (x - c1)) by (unfold UINT_MAX; lia).
  rewrite s32_small by (unfold INT_MAX; lia).
  apply (span_inv_at (fun k q => row_done (x - c1) k q));
    try (unfold INT_MAX; lia).
  - exists cs. split; [reflexivity|]. split; [exact Hl|]. intros j Hj. lia.
  - intros k q Hk Hq.
    destruct (plot_row_next (x - c1) k q ltac:(unfold INT_MAX; lia) Hq)
      as (q1 & -> & Hq1).
    cbn [bind].
    destruct (plot_row_next (x - c1) k q1 ltac:(unfold INT_MAX; lia)) as (q2 & Hr2 & _).
    { destruct Hq1 as (cs1 & -> & Hl1 & Hcs1).
      exists cs1. split; [reflexivity|]. split; [exact Hl1|].
      intros j Hj. apply Hcs1. lia. }
    exists q2. split; [exact Hr2|].
    eapply plot_row_done; [exact Hq1|exact Hr2].
Qed.

(** Whenever [_circle] returns for a centre at least [radius - 1] columns
    from the left edge, the diameter in the row of the centre is painted. *)
Lemma circle_centre_row radius tex' :
  1 <= radius < 1073741824 -> radius - 1 <= x -> x + radius <= INT_MAX ->
  rgb tex = Block cells ->
  _circle tex x y radius c = Ok tex' ->
  forall j, x - (radius - 1) <= j <= x + (radius - 1) -> 0 <= j < width tex ->
    pixel tex' j y = Some c.
Proof.
  unfold INT_MAX in *. intros Hr Hfit Hxr Hrgb H.
  unfold _circle in H. invert_bind. injection H as <-.
  assert (init_vars radius
          = {| cx := radius - 1; cy := 0; dx := 1; dy := 1;
               err := err (init_vars radius) |}) as Hinit.
  { unfold init_vars. cbn [err].
    rewrite s32_u32, s32_small by (unfold INT_MAX; lia). reflexivity. }
  rewrite Hinit, Hrgb in Hx0. unfold circle_fuel in Hx0 at 1.
  cbn [circle_loop cx cy] in Hx0.
  destruct (Z.leb_spec 0 (radius - 1)); [|lia].
  invert_bind.
  destruct (span_centre_row (circle_fuel radius) (radius - 1) (Block cells))
    as (p1 & Hp1 & Hrow); try (unfold INT_MAX, circle_fuel; lia).
  { exists cells. auto. }
  rewrite Hp1 in Hx1. injection Hx1 as <-.
  assert (row_done (x - (radius - 1)) (x + (radius - 1) + 1) x0) as (cs & -> & Hl & Hcs).
  { eapply (circle_loop_keeps (row_done (x - (radius - 1)) (x + (radius - 1) + 1)));
      [| |exact Hx0].
    - intros i row q q'. apply plot_row_done.
    - eapply (span_keeps (row_done (x - (radius - 1)) (x + (radius - 1) + 1)));
        [| |exact Hx2]; [|exact Hrow].
      intros k q q' Hq Hk. cbv beta in Hk. invert_bind.
      eapply plot_row_done; [|exact Hk]. eapply plot_row_done; eassumption. }
  intros j Hj Hjw. unfold pixel. cbn [with_rgb rgb width]. apply Hcs; lia.
Qed.

End CircleRow.

(** X21: when the centre lies in a row of the buffer, at least [radius - 1]
    columns from the left edge, [_circle] paints the horizontal diameter:
    every pixel of row [y] in the columns [x - (radius - 1)] to
    [x + (radius - 1)] that the buffer has is [c] afterwards. *)
Theorem circle_paints_diameter (tex : texture_t) (x y radius : Z) (c : color_t) :
  wf_texture tex = true ->
  0 <= y < height tex -> 1 <= radius < 1073741824 -> radius - 1 <= x ->
  x + radius <= INT_MAX -> y + radius <= UINT_MAX ->
  exists tex',
    _circle tex x y radius c = Ok tex' /\
    forall j, x - (radius - 1) <= j <= x + (radius - 1) -> 0 <= j < width tex ->
      pixel tex' j y = Some c.
Proof.
  intros Hwf Hy Hr Hfit Hxr Hyr.
  destruct (wf_texture_inv tex Hwf) as (cells & Hrgb & HW & HH & Hlen & Hsz).
  assert (width tex * height tex <= SIZE_MAX) as Hsize
    by (unfold sizeof_color_t, SIZE_MAX in *; lia).
  destruct (circle_region tex cells c x y radius (fun _ _ => true)
              (fun _ => True)) as (cs & Hrun & _); try assumption; auto; try lia.
  exists (with_rgb tex (Block cs)). split; [exact Hrun|].
  apply (circle_centre_row tex cells c x y); try assumption; lia.
Qed.

Lemma circle_paints_diameter_witness :
  exists tex',
    _circle (solid 8 8 black) 4 4 3 white = Ok tex' /\
    forall j, 4 - (3 - 1) <= j <= 4 + (3 - 1) -> 0 <= j < width (solid 8 8 black) ->
      pixel tex' j 4 = Some white.
Proof.
  apply (circle_paints_diameter (solid 8 8 black) 4 4 3 white);
    first [reflexivity | unfold INT_MAX, UINT_MAX; simpl; lia].
Defined.



(** ** The scratch store *)

(** X23: the indeterminate content of the scratch block never reaches the
    buffer: [_mirror] and [_flip] return the same buffer whatever the
    block that [malloc] hands out holds. *)
Theorem scratch_content_irrelevant (tex : texture_t) (hp : heap)
    (junk junk' : color_t) :
  wf_texture tex = true ->
  _mirror (Some junk :: hp) tex = _mirror (Some junk' :: hp) tex /\
  _flip (Some junk :: hp) tex = _flip (Some junk' :: hp) tex.
Proof.
  intros Hwf.
  destruct (wf_texture_inv tex Hwf) as (cells & Hrgb & HW & HH & Hlen & Hsz).
  split.
  - destruct (mirror_run junk hp tex cells Hwf Hrgb) as (cs & -> & Hl & Hcs).
    destruct (mirror_run junk' hp tex cells Hwf Hrgb) as (cs' & -> & Hl' & Hcs').
    do 4 f_equal.
    apply (pixelwise_eq (width tex) (height tex)); try lia.
    intros j i Hj Hi. rewrite Hcs, Hcs' by lia. reflexivity.
  - destruct (flip_run junk hp tex cells Hwf Hrgb) as (cs & -> & Hl & Hcs).
    destruct (flip_run junk' hp tex cells Hwf Hrgb) as (cs' & -> & Hl' & Hcs').
    do 4 f_equal.
    apply (pixelwise_eq (width tex) (height tex)); try lia.
    intros j i Hj Hi. rewrite Hcs, Hcs' by lia. reflexivity.
Qed.

Lemma scratch_content_irrelevant_witness :
  _mirror [Some black] corner = _mirror [Some white] corner /\
  _flip [Some black] corner = _flip [Some white] corner.
Proof. apply (scratch_content_irrelevant corner [] black white). reflexivity. Defined.

(** ** [_circle] around a centre given as [int]s *)





Section CircleSigned.

Variable tex : texture_t.
Variable cells : list color_t.
Variable c : color_t.
Variables x y radius : Z.

Hypothesis HW : 0 <= width tex <= INT_MAX.
Hypothesis HH : 0 <= height tex <= INT_MAX.
Hypothesis Hlen : Z.of_nat (length cells) = width tex * height tex.
Hypothesis Hsize : width tex * height tex <= SIZE_MAX.
Hypothesis Hx : 0 <= x <= UINT_MAX.
Hypothesis Hy : 0 <= y <= UINT_MAX.
Hypothesis Hr : 0 <= radius < 1073741824.
Hypothesis Hsx :
  (0 <= s32 x /\ s32 x + radius <= INT_MAX) \/
  (- INT_MAX - 1 + radius <= s32 x /\ s32 x + radius < 0).
Hypothesis Hsy : - INT_MAX - 1 + radius <= s32 y.





End CircleSigned.


